(** * goexpert-rate-limiter: the rate-decision engine and its stores

    A shallow embedding of
    - [internal/ratelimiter]: [Config], [RateLimiter], [NewRateLimiter],
      [AddTokenConfig], [CheckIP], [CheckToken], [checkLimit];
    - [internal/storage]: the [Storage] interface and [RedisStorage];
    - the test double [InMemoryStorage] of the middleware tests;
    - [internal/middleware]: [getClientIP] and [Handler];
    - [internal/config]: [Load], [loadTokenConfigs] and the [getEnv]
      helpers; and the registration loop of [main].

    Go's [(value, error)] results are pairs whose second component is an
    [option error] ([None] is [nil]).  A store is mutable state behind an
    interface: the engine is written once, in a state monad, against a
    type class of stores, and is run on each concrete store.  The
    [context.Context] argument is passed through unused by the code
    modelled here and is left out. *)

From Stdlib Require Import ZArith Lia Ascii.
From stdpp Require Import base option list gmap strings.

Local Open Scope Z_scope.
Local Open Scope string_scope.

(** ** Go basics *)

(** [error] values: a fresh error, or [fmt.Errorf("<prefix>: %w", cause)]. *)
Inductive error : Type :=
  | New (msg : string)
  | Errorf (prefix : string) (cause : error).

(** [errors.Unwrap]. *)
Definition Unwrap (e : error) : option error :=
  match e with
  | New _ => None
  | Errorf _ cause => Some cause
  end.

(** [int64]: range and two's-complement wrap-around of [x++]. *)
Definition min_int64 : Z := - 2 ^ 63.
Definition max_int64 : Z := 2 ^ 63 - 1.
Definition wrap64 (z : Z) : Z := (z + 2 ^ 63) mod 2 ^ 64 - 2 ^ 63.
Definition in_int64 (z : Z) : Prop := min_int64 <= z <= max_int64.

(** Instants ([time.Time]) and durations ([time.Duration]) are integers
    counting nanoseconds; [t.Add(d)] is [t + d], [t.Before(u)] is [t <? u]. *)
Definition Second : Z := 1000000000.
Definition Minute : Z := 60 * Second.

(** ** Mutable state: the state monad *)

Definition State (St A : Type) : Type := St -> A * St.

#[global] Instance State_ret {St} : MRet (State St) :=
  fun A (a : A) s => (a, s).
#[global] Instance State_bind {St} : MBind (State St) :=
  fun A B (k : A -> State St B) (m : State St A) s =>
    let '(a, s') := m s in k a s'.

Definition get {St} : State St St := fun s => (s, s).
Definition put {St} (s : St) : State St unit := fun _ => (tt, s).

(** ** [storage.Storage] *)

Class Storage (St : Type) : Type := {
  Increment : string -> Z -> State St (Z * option error);
  IsBlocked : string -> State St (bool * option error);
  Block : string -> Z -> State St (option error);
  Close : State St (option error)
}.

(** ** [ratelimiter.Config] and [ratelimiter.RateLimiter] *)

Record Config : Type := mkConfig {
  Requests : Z;
  Window : Z;
  BlockTime : Z
}.

(** The [storage] field of the Go struct is a reference to the store; here
    the store is the state the monad threads, so the record keeps the two
    configuration fields. *)
Record RateLimiter : Type := mkRateLimiter {
  ipConfig : Config;
  tokens : gmap string Config
}.

Definition NewRateLimiter (ipConfig : Config) : RateLimiter :=
  {| ipConfig := ipConfig; tokens := ∅ |}.

Definition AddTokenConfig (token : string) (config : Config)
    (rl : RateLimiter) : RateLimiter :=
  {| ipConfig := ipConfig rl; tokens := <[token := config]> (tokens rl) |}.

Section Engine.
Context {St : Type} `{!Storage St}.

Definition checkLimit (key : string) (config : Config)
    : State St (bool * option error) :=
  '(blocked, err) ← IsBlocked key;
  match err with
  | Some e => mret (false, Some (Errorf "falha ao verificar se está bloqueado" e))
  | None =>
    if blocked : bool then mret (false, None)
    else
      '(count, err) ← Increment key (Window config);
      match err with
      | Some e => mret (false, Some (Errorf "falha ao incrementar contador" e))
      | None =>
        if (count >? Requests config)%Z then
          err ← Block key (BlockTime config);
          match err with
          | Some e => mret (false, Some (Errorf "falha ao bloquear chave" e))
          | None => mret (false, None)
          end
        else mret (true, None)
      end
  end.

Definition CheckIP (rl : RateLimiter) (ip : string)
    : State St (bool * option error) :=
  let key := "ip:" ++ ip in
  checkLimit key (ipConfig rl).

Definition CheckToken (rl : RateLimiter) (token : string)
    : State St (bool * option error) :=
  match tokens rl !! token with
  | None => mret (true, None)
  | Some config =>
    let key := "token:" ++ token in
    checkLimit key config
  end.
End Engine.

(** [n] consecutive calls of the same operation, results in call order
    (the [for] loops of the tests). *)
Fixpoint calls {St A : Type} (n : nat) (m : State St A) : State St (list A) :=
  match n with
  | O => mret []
  | S n' => a ← m; l ← calls n' m; mret (a :: l)
  end.

(** ** Recording the store operations of a run

    To state which store operations a decision invokes, a store is wrapped
    into one that forwards every operation and appends it, with its
    arguments and results, to a log (what testify's [mock.Mock] keeps in
    [Calls] for [MockStorage]). *)
Inductive Call : Type :=
  | CallIsBlocked (key : string) (ret : bool) (err : option error)
  | CallIncrement (key : string) (window : Z) (ret : Z) (err : option error)
  | CallBlock (key : string) (duration : Z) (err : option error)
  | CallClose (err : option error).

Definition call_err (c : Call) : option error :=
  match c with
  | CallIsBlocked _ _ err => err
  | CallIncrement _ _ _ err => err
  | CallBlock _ _ err => err
  | CallClose err => err
  end.

Definition is_IsBlocked (c : Call) : bool :=
  match c with CallIsBlocked _ _ _ => true | _ => false end.
Definition is_Increment (c : Call) : bool :=
  match c with CallIncrement _ _ _ _ => true | _ => false end.
Definition is_Block (c : Call) : bool :=
  match c with CallBlock _ _ _ => true | _ => false end.

Record Recorder (St : Type) : Type := mkRecorder {
  store : St;
  Calls : list Call
}.
Arguments mkRecorder {St} _ _.
Arguments store {St} _.
Arguments Calls {St} _.

Definition recording {St A : Type} (op : State St A) (entry : A -> Call)
    : State (Recorder St) A :=
  fun r =>
    let '(a, s') := op (store r) in
    (a, {| store := s'; Calls := Calls r ++ [entry a] |}).

#[global] Instance Recorder_Storage {St} `{!Storage St} : Storage (Recorder St) := {
  Increment key window :=
    recording (Increment key window) (fun r => CallIncrement key window r.1 r.2);
  IsBlocked key :=
    recording (IsBlocked key) (fun r => CallIsBlocked key r.1 r.2);
  Block key duration :=
    recording (Block key duration) (fun err => CallBlock key duration err);
  Close := recording Close CallClose
}.

(** ** [InMemoryStorage], the test double

    [time.Now()] reads a clock outside the program.  The clock is a
    function giving the instant of each successive reading, and the store
    state counts the readings taken so far: the [k]-th call of [time.Now()]
    returns [clock k].  Nothing is assumed about the clock here. *)
Record countData : Type := mkCountData {
  count : Z;
  expireAt : Z
}.

Record InMemoryStorage : Type := mkInMemoryStorage {
  counters : gmap string countData;
  blocked : gmap string Z;
  ticks : nat
}.

Definition NewInMemoryStorage : InMemoryStorage :=
  {| counters := ∅; blocked := ∅; ticks := 0 |}.

(** Go's two-result map read [v, exists := m[k]], with the zero value for
    an absent key. *)
Definition map_read {V : Type} (zero : V) (m : gmap string V) (k : string)
    : V * bool :=
  match m !! k with
  | Some v => (v, true)
  | None => (zero, false)
  end.

Section InMemory.
Variable clock : nat -> Z.

Definition time_Now : State InMemoryStorage Z :=
  fun s => (clock (ticks s),
            {| counters := counters s; blocked := blocked s;
               ticks := S (ticks s) |}).

Definition set_counter (key : string) (data : countData)
    : State InMemoryStorage unit :=
  fun s => (tt, {| counters := <[key := data]> (counters s);
                   blocked := blocked s; ticks := ticks s |}).

Definition set_blocked (key : string) (until : Z)
    : State InMemoryStorage unit :=
  fun s => (tt, {| counters := counters s;
                   blocked := <[key := until]> (blocked s);
                   ticks := ticks s |}).

Definition InMemory_Increment (key : string) (window : Z)
    : State InMemoryStorage (Z * option error) :=
  now ← time_Now;
  s ← get;
  let '(data, exists_) := map_read {| count := 0; expireAt := 0 |} (counters s) key in
  if exists_ && (now <? expireAt data)%Z then
    let data := {| count := wrap64 (count data + 1); expireAt := expireAt data |} in
    _ ← set_counter key data;
    mret (count data, None)
  else
    _ ← set_counter key {| count := 1; expireAt := now + window |};
    mret (1, None).

Definition InMemory_IsBlocked (key : string)
    : State InMemoryStorage (bool * option error) :=
  s ← get;
  let '(blockedUntil, exists_) := map_read 0 (blocked s) key in
  if exists_ then
    now ← time_Now;
    mret ((now <? blockedUntil)%Z, None)
  else mret (false, None).

Definition InMemory_Block (key : string) (duration : Z)
    : State InMemoryStorage (option error) :=
  now ← time_Now;
  _ ← set_blocked key (now + duration);
  mret None.

Definition InMemory_Close : State InMemoryStorage (option error) :=
  mret None.

Definition InMemory_Storage : Storage InMemoryStorage := {|
  Increment := InMemory_Increment;
  IsBlocked := InMemory_IsBlocked;
  Block := InMemory_Block;
  Close := InMemory_Close
|}.
End InMemory.

(** ** [RedisStorage]

    [r.client] talks to a Redis server, which is not part of the
    repository.  The server is modelled by the documented behaviour of the
    four commands the store sends (INCR, EXPIRE, EXISTS, SET with a time to
    live): a key space of integer-valued strings with optional expiry
    instants, expired keys being absent, and a connection that is up or
    down.  Times to live are kept in nanoseconds (the client rounds them to
    the server's unit; that rounding plays no part below).  The server
    reads its clock once per command, as [time.Now()] above. *)
Record entry : Type := mkEntry {
  val : Z;
  expiry : option Z
}.

Record RedisServer : Type := mkRedisServer {
  db : gmap string entry;
  up : bool;
  rticks : nat
}.

Definition KeepTTL : Z := -1.

Definition live (now : Z) (e : entry) : bool :=
  match expiry e with
  | Some t => (now <? t)%Z
  | None => true
  end.

Definition live_entry (now : Z) (d : gmap string entry) (key : string)
    : option entry :=
  match d !! key with
  | Some e => if live now e then Some e else None
  | None => None
  end.

Definition first_err (e1 e2 : option error) : option error :=
  match e1 with
  | Some e => Some e
  | None => e2
  end.

Section Redis.
Variable clock : nat -> Z.

(** One command on the connection: refused when the connection is down,
    executed at the server's current instant otherwise. *)
Definition command {A : Type} (zero : A)
    (exec : Z -> gmap string entry -> (A * option error) * gmap string entry)
    : State RedisServer (A * option error) :=
  fun s =>
    if up s then
      let '(r, d) := exec (clock (rticks s)) (db s) in
      (r, {| db := d; up := true; rticks := S (rticks s) |})
    else ((zero, Some (New "connection refused")), s).

Definition INCR (key : string) : State RedisServer (Z * option error) :=
  command 0 (fun now d =>
    match live_entry now d key with
    | None => ((1, None), <[key := {| val := 1; expiry := None |}]> d)
    | Some e =>
      if (max_int64 <=? val e)%Z then
        ((0, Some (New "ERR increment or decrement would overflow")), d)
      else
        ((val e + 1, None),
         <[key := {| val := val e + 1; expiry := expiry e |}]> d)
    end).

Definition EXPIRE (key : string) (ttl : Z)
    : State RedisServer (bool * option error) :=
  command false (fun now d =>
    match live_entry now d key with
    | None => ((false, None), d)
    | Some e =>
      if (ttl <=? 0)%Z then ((true, None), delete key d)
      else ((true, None),
            <[key := {| val := val e; expiry := Some (now + ttl) |}]> d)
    end).

Definition EXISTS (key : string) : State RedisServer (Z * option error) :=
  command 0 (fun now d =>
    match live_entry now d key with
    | None => ((0, None), d)
    | Some _ => ((1, None), d)
    end).

Definition SET (key : string) (value : Z) (expiration : Z)
    : State RedisServer (unit * option error) :=
  command tt (fun now d =>
    let exp :=
      if (0 <? expiration)%Z then Some (now + expiration)
      else if (expiration =? KeepTTL)%Z then
        match live_entry now d key with
        | Some e => expiry e
        | None => None
        end
      else None in
    ((tt, None), <[key := {| val := value; expiry := exp |}]> d)).

(** The pipeline queues INCR and EXPIRE and [Exec] sends both; its error
    is the first failed command's. *)
Definition Redis_Increment (key : string) (window : Z)
    : State RedisServer (Z * option error) :=
  '(incrCmd, e1) ← INCR key;
  '(_, e2) ← EXPIRE key window;
  match first_err e1 e2 with
  | Some err => mret (0, Some (Errorf "falha ao incrementar contador" err))
  | None => mret (incrCmd, None)
  end.

Definition Redis_IsBlocked (key : string)
    : State RedisServer (bool * option error) :=
  let blockedKey := "blocked:" ++ key in
  '(result, err) ← EXISTS blockedKey;
  match err with
  | Some e =>
    mret (false, Some (Errorf "falha ao verificar se a chave está bloqueada" e))
  | None => mret ((result >? 0)%Z, None)
  end.

Definition Redis_Block (key : string) (duration : Z)
    : State RedisServer (option error) :=
  let blockedKey := "blocked:" ++ key in
  '(_, err) ← SET blockedKey 1 duration;
  match err with
  | Some e => mret (Some (Errorf "falha ao bloquear chave" e))
  | None => mret None
  end.

Definition Redis_Close : State RedisServer (option error) :=
  fun s => (None, {| db := db s; up := false; rticks := rticks s |}).

Definition Redis_Storage : Storage RedisServer := {|
  Increment := Redis_Increment;
  IsBlocked := Redis_IsBlocked;
  Block := Redis_Block;
  Close := Redis_Close
|}.
End Redis.

(** ** Vocabulary of the specification *)

(** The data-model invariant of a scope: [requestLimit >= 1] and
    [windowDuration > 0]. *)
Definition valid_config (c : Config) : Prop :=
  1 <= Requests c /\ 0 < Window c.

(** The store operations a run added to the log. *)
Definition new_calls {St} (before : list Call) (after : Recorder St) : list Call :=
  drop (length before) (Calls after).

Definition count_calls (p : Call -> bool) (l : list Call) : nat :=
  length (List.filter p l).

Definition failed (c : Call) : Prop := is_Some (call_err c).

(** The log of [n] allowed decisions on a fresh counter followed by the
    one that exceeds the limit. *)
Definition allowed_log (key : string) (config : Config) (from n : nat)
    : list Call :=
  flat_map (fun i => [CallIsBlocked key false None;
                      CallIncrement key (Window config) (Z.of_nat (S i)) None])
           (seq from n).

Definition denied_log (key : string) (config : Config) (n : nat) : list Call :=
  [CallIsBlocked key false None;
   CallIncrement key (Window config) (Z.of_nat (S n)) None;
   CallBlock key (BlockTime config) None].

(** [k] requests have been counted for [key] since the store had taken
    [t0] readings of the clock: the counter, if any, holds [k] and expires
    one window after the first of these requests, and [key] carries no
    block. *)
Definition counting (clock : nat -> Z) (key : string) (config : Config)
    (t0 k : nat) (s : InMemoryStorage) : Prop :=
  ticks s = (t0 + k)%nat /\
  blocked s !! key = None /\
  match counters s !! key with
  | None => k = 0%nat
  | Some d => count d = Z.of_nat k /\ (0 < k)%nat /\
              expireAt d = clock t0 + Window config
  end.

(** The increments of a run that starts after [t0] readings of the clock
    fall within one window: each of the [M] increments after the first is
    taken before the window opened by the first has elapsed.  (A block
    query on a key without block reads no clock, so the [j]-th increment
    of the run takes reading [t0 + j].) *)
Definition within_one_window (clock : nat -> Z) (config : Config)
    (t0 M : nat) : Prop :=
  forall j, (t0 < j <= t0 + M)%nat -> clock j < clock t0 + Window config.

Section Outcome.
Context {St : Type} `{!Storage St}.
Implicit Types (s : St) (log : list Call) (key : string) (config : Config).

(** The five ways a decision can go, one per [return] of [checkLimit],
    with the store operations each one performs, in order. *)
Inductive outcome key config s log
    : bool * option error -> Recorder St -> Prop :=
  | IsBlocked_fails b e s1 :
      IsBlocked key s = ((b, Some e), s1) ->
      outcome key config s log
        (false, Some (Errorf "falha ao verificar se está bloqueado" e))
        (mkRecorder s1 (log ++ [CallIsBlocked key b (Some e)]))
  | Already_blocked s1 :
      IsBlocked key s = ((true, None), s1) ->
      outcome key config s log (false, None)
        (mkRecorder s1 (log ++ [CallIsBlocked key true None]))
  | Increment_fails s1 n e s2 :
      IsBlocked key s = ((false, None), s1) ->
      Increment key (Window config) s1 = ((n, Some e), s2) ->
      outcome key config s log
        (false, Some (Errorf "falha ao incrementar contador" e))
        (mkRecorder s2 (log ++ [CallIsBlocked key false None;
                                CallIncrement key (Window config) n (Some e)]))
  | Within_limit s1 n s2 :
      IsBlocked key s = ((false, None), s1) ->
      Increment key (Window config) s1 = ((n, None), s2) ->
      n <= Requests config ->
      outcome key config s log (true, None)
        (mkRecorder s2 (log ++ [CallIsBlocked key false None;
                                CallIncrement key (Window config) n None]))
  | Limit_exceeded s1 n s2 err s3 :
      IsBlocked key s = ((false, None), s1) ->
      Increment key (Window config) s1 = ((n, None), s2) ->
      Requests config < n ->
      Block key (BlockTime config) s2 = (err, s3) ->
      outcome key config s log
        (false, Errorf "falha ao bloquear chave" <$> err)
        (mkRecorder s3 (log ++ [CallIsBlocked key false None;
                                CallIncrement key (Window config) n None;
                                CallBlock key (BlockTime config) err])).
End Outcome.

(** ** Data of the repository's tests, used for runs on concrete inputs *)

(** [Config{Requests: 3, Window: time.Second, BlockTime: time.Minute}]. *)
Definition test_config : Config :=
  {| Requests := 3; Window := Second; BlockTime := Minute |}.

(** The address scope with a limit of 1 and the token scope with a limit
    of 3 of [TestRateLimiterMiddleware_TokenOverridesIP]. *)
Definition low_ip_config : Config :=
  {| Requests := 1; Window := Second; BlockTime := Minute |}.

Definition override_limiter : RateLimiter :=
  AddTokenConfig "abc123" test_config (NewRateLimiter low_ip_config).

(** A configuration violating the data-model invariant. *)
Definition zero_config : Config :=
  {| Requests := 0; Window := 0; BlockTime := 0 |}.

(** A clock that advances one millisecond per reading. *)
Definition ms_clock (k : nat) : Z := Z.of_nat k * 1000000.

(** A clock whose first [n] readings are the instant 0 and whose later
    readings are the instant 500ms. *)
Definition step_clock (n k : nat) : Z :=
  if (k <? n)%nat then 0 else 500000000.

(** An in-memory store in which ["ip:192.168.1.1"] is blocked until the
    instant one minute. *)
Definition blocked_store : InMemoryStorage :=
  {| counters := {["ip:192.168.1.1" := {| count := 4; expireAt := Second |}]};
     blocked := {["ip:192.168.1.1" := Minute]};
     ticks := 0 |}.

Definition empty_server : RedisServer :=
  {| db := ∅; up := true; rticks := 0 |}.

Definition down_server : RedisServer :=
  {| db := ∅; up := false; rticks := 0 |}.

(** ** Further vocabulary *)

(** The rate key a store operation was called with. *)
Definition call_key (c : Call) : option string :=
  match c with
  | CallIsBlocked key _ _ => Some key
  | CallIncrement key _ _ _ => Some key
  | CallBlock key _ _ => Some key
  | CallClose _ => None
  end.

(** A clock that never goes back. *)
Definition monotone (clock : nat -> Z) : Prop :=
  forall i j, (i <= j)%nat -> clock i <= clock j.

(** What an operation on [key] may change in the in-memory store: the
    counter and the block of [key], and the number of clock readings. *)
Definition only_key_changed (key : string) (s s' : InMemoryStorage) : Prop :=
  (ticks s <= ticks s')%nat /\
  forall key', key' <> key ->
    counters s' !! key' = counters s !! key' /\
    blocked s' !! key' = blocked s !! key'.

(** ** [main]: registering the loaded token configurations

    [for token, tokenConfig := range cfg.Tokens { rateLimiter.AddTokenConfig(token, tokenConfig) }];
    the order in which a Go map is ranged over is unspecified, the fold
    visits the entries in some order. *)
Definition register_tokens (Tokens : gmap string Config) (rl : RateLimiter)
    : RateLimiter :=
  map_fold AddTokenConfig rl Tokens.

(** ** Package [config]

    [strings.Split] (for a separator of one byte), [HasPrefix],
    [HasSuffix], [TrimPrefix] and [TrimSuffix] on byte strings. *)
Fixpoint Split (sep : Ascii.ascii) (s : string) : list string :=
  match s with
  | EmptyString => [""]
  | String c rest =>
    if Ascii.eqb c sep then "" :: Split sep rest
    else match Split sep rest with
         | h :: t => String c h :: t
         | [] => [String c ""]
         end
  end.

Definition HasPrefix (s prefix : string) : bool := String.prefix prefix s.

Definition HasSuffix (s suffix : string) : bool :=
  (String.length suffix <=? String.length s)%nat
  && String.eqb
       (String.substring (String.length s - String.length suffix)
          (String.length suffix) s)
       suffix.

Definition TrimPrefix (s prefix : string) : string :=
  if HasPrefix s prefix then
    String.substring (String.length prefix) (String.length s - String.length prefix) s
  else s.

Definition TrimSuffix (s suffix : string) : string :=
  if HasSuffix s suffix then
    String.substring 0 (String.length s - String.length suffix) s
  else s.

Record RedisConfig : Type := mkRedisConfig {
  Addr : string;
  Password : string;
  DB : Z
}.

(** [config.Config]. *)
Record AppConfig : Type := mkAppConfig {
  Redis : RedisConfig;
  IP : Config;
  Tokens : gmap string Config
}.

Section ConfigLoad.
(** The process environment and the parsers of the Go library are outside
    the repository: [os.Getenv], [os.Environ()], [strconv.Atoi],
    [strconv.ParseInt(_, 10, 64)] and [time.ParseDuration] are parameters,
    each returning Go's [(value, error)] pair.  The environment is the one
    left by [godotenv.Load()], whose result [Load] ignores. *)
Variable Getenv : string -> string.
Variable Environ : list string.
Variable Atoi : string -> Z * option error.
Variable ParseInt : string -> Z * option error.
Variable ParseDuration : string -> Z * option error.

Definition getEnv (key defaultValue : string) : string :=
  let value := Getenv key in
  if negb (String.eqb value "") then value else defaultValue.

Definition getEnvAsInt (key : string) (defaultValue : Z) : Z :=
  let valueStr := getEnv key "" in
  if String.eqb valueStr "" then defaultValue
  else
    let '(value, err) := Atoi valueStr in
    match err with
    | Some _ => defaultValue
    | None => value
    end.

Definition getEnvAsInt64 (key : string) (defaultValue : Z) : Z :=
  let valueStr := getEnv key "" in
  if String.eqb valueStr "" then defaultValue
  else
    let '(value, err) := ParseInt valueStr in
    match err with
    | Some _ => defaultValue
    | None => value
    end.

(** The loop of [loadTokenConfigs] over the remaining entries of
    [os.Environ()], with [c.Tokens] as accumulator; [continue] goes on
    with the rest, [return] stops. *)
Fixpoint loadTokenConfigs_from (envs : list string) (Tokens : gmap string Config)
    : gmap string Config * option error :=
  match envs with
  | [] => (Tokens, None)
  | env :: rest =>
    let parts := Split "="%char env in
    if negb (length parts =? 2)%nat then loadTokenConfigs_from rest Tokens
    else
      let key := nth 0 parts "" in
      if negb (HasPrefix key "RATE_LIMIT_TOKEN_")
         || negb (HasSuffix key "_REQUESTS")
      then loadTokenConfigs_from rest Tokens
      else
        let tokenPart := TrimPrefix key "RATE_LIMIT_TOKEN_" in
        let tokenPart := TrimSuffix tokenPart "_REQUESTS" in
        if String.eqb tokenPart "" then loadTokenConfigs_from rest Tokens
        else
          let requests :=
            getEnvAsInt64 ("RATE_LIMIT_TOKEN_" ++ tokenPart ++ "_REQUESTS") 0 in
          if (requests =? 0)%Z then loadTokenConfigs_from rest Tokens
          else
            let windowStr :=
              getEnv ("RATE_LIMIT_TOKEN_" ++ tokenPart ++ "_WINDOW") "1s" in
            let '(window, err) := ParseDuration windowStr in
            match err with
            | Some err =>
              (Tokens,
               Some (Errorf ("duração inválida da janela para token " ++ tokenPart)
                       err))
            | None =>
              let blockTimeStr :=
                getEnv ("RATE_LIMIT_TOKEN_" ++ tokenPart ++ "_BLOCK_TIME") "5m" in
              let '(blockTime, err) := ParseDuration blockTimeStr in
              match err with
              | Some err =>
                (Tokens,
                 Some (Errorf
                         ("duração inválida do tempo de bloqueio para token "
                          ++ tokenPart) err))
              | None =>
                loadTokenConfigs_from rest
                  (<[tokenPart := {| Requests := requests; Window := window;
                                     BlockTime := blockTime |}]> Tokens)
              end
            end
  end.

Definition loadTokenConfigs (Tokens : gmap string Config)
    : gmap string Config * option error :=
  loadTokenConfigs_from Environ Tokens.

(** [Load] returns [(config, nil)] or [(nil, err)]. *)
Definition Load : option AppConfig * option error :=
  let redis :=
    {| Addr := getEnv "REDIS_ADDR" "localhost:6379";
       Password := getEnv "REDIS_PASSWORD" "";
       DB := getEnvAsInt "REDIS_DB" 0 |} in
  let ipRequests := getEnvAsInt64 "RATE_LIMIT_IP_REQUESTS" 10 in
  let '(ipWindow, err) := ParseDuration (getEnv "RATE_LIMIT_IP_WINDOW" "1s") in
  match err with
  | Some err => (None, Some (Errorf "duração inválida da janela de IP" err))
  | None =>
    let '(ipBlockTime, err) :=
      ParseDuration (getEnv "RATE_LIMIT_IP_BLOCK_TIME" "5m") in
    match err with
    | Some err =>
      (None, Some (Errorf "duração inválida do tempo de bloqueio de IP" err))
    | None =>
      let ip := {| Requests := ipRequests; Window := ipWindow;
                   BlockTime := ipBlockTime |} in
      let '(tokens, err) := loadTokenConfigs ∅ in
      match err with
      | Some err =>
        (None, Some (Errorf "falha ao carregar configurações de tokens" err))
      | None => (Some {| Redis := redis; IP := ip; Tokens := tokens |}, None)
      end
    end
  end.
End ConfigLoad.

(** The configuration the three variables of token [t] describe:
    [RATE_LIMIT_TOKEN_<t>_REQUESTS] (0 when unset or unreadable),
    [RATE_LIMIT_TOKEN_<t>_WINDOW] (["1s"] when unset) and
    [RATE_LIMIT_TOKEN_<t>_BLOCK_TIME] (["5m"] when unset). *)
Definition token_window_var (Getenv : string -> string) (t : string) : string :=
  getEnv Getenv ("RATE_LIMIT_TOKEN_" ++ t ++ "_WINDOW") "1s".

Definition token_block_var (Getenv : string -> string) (t : string) : string :=
  getEnv Getenv ("RATE_LIMIT_TOKEN_" ++ t ++ "_BLOCK_TIME") "5m".

Definition token_config_of_env (Getenv : string -> string)
    (ParseInt ParseDuration : string -> Z * option error) (t : string)
    : Config :=
  {| Requests :=
       getEnvAsInt64 Getenv ParseInt ("RATE_LIMIT_TOKEN_" ++ t ++ "_REQUESTS") 0;
     Window := (ParseDuration (token_window_var Getenv t)).1;
     BlockTime := (ParseDuration (token_block_var Getenv t)).1 |}.

(** What [loadTokenConfigs] guarantees of an entry [t |-> c] of
    [c.Tokens]. *)
Definition loaded_from_env (Getenv : string -> string)
    (ParseInt ParseDuration : string -> Z * option error)
    (t : string) (c : Config) : Prop :=
  t <> "" /\
  c = token_config_of_env Getenv ParseInt ParseDuration t /\
  Requests c <> 0 /\
  (ParseDuration (token_window_var Getenv t)).2 = None /\
  (ParseDuration (token_block_var Getenv t)).2 = None.

(** ** Further data for runs on concrete inputs *)

Definition test_key : string := "ip:192.168.1.1".

(** A limit of 3 with a window of 0. *)
Definition zero_window_config : Config :=
  {| Requests := 3; Window := 0; BlockTime := Minute |}.

(** The counter of [test_key] holds 4 and expired at instant 0; no block. *)
Definition expired_store : InMemoryStorage :=
  {| counters := {[test_key := {| count := 4; expireAt := 0 |}]};
     blocked := ∅; ticks := 0 |}.

(** The block of [test_key] ended at instant 0; its counter holds 4 and is
    live until 1s. *)
Definition short_block_store : InMemoryStorage :=
  {| counters := {[test_key := {| count := 4; expireAt := Second |}]};
     blocked := {[test_key := 0]}; ticks := 0 |}.

(** Both the block and the counter of [test_key] ended at instant 0. *)
Definition elapsed_store : InMemoryStorage :=
  {| counters := {[test_key := {| count := 4; expireAt := 0 |}]};
     blocked := {[test_key := 0]}; ticks := 0 |}.

(** The counter of [test_key] holds [MaxInt64] and is live until 1s. *)
Definition saturated_store : InMemoryStorage :=
  {| counters := {[test_key := {| count := max_int64; expireAt := Second |}]};
     blocked := ∅; ticks := 0 |}.

Definition saturated_server : RedisServer :=
  {| db := {[test_key := {| val := max_int64; expiry := None |}]};
     up := true; rticks := 0 |}.

(** An environment with the variables of one token, and parsers that read
    the three strings it uses. *)
Definition test_Environ : list string :=
  ["HOME=/root"; "RATE_LIMIT_TOKEN_abc123_REQUESTS=100";
   "RATE_LIMIT_TOKEN_abc123_WINDOW=1s"].

Definition test_Getenv (key : string) : string :=
  if String.eqb key "RATE_LIMIT_TOKEN_abc123_REQUESTS" then "100"
  else if String.eqb key "RATE_LIMIT_TOKEN_abc123_WINDOW" then "1s"
  else if String.eqb key "HOME" then "/root"
  else "".

Definition test_ParseInt (s : string) : Z * option error :=
  if String.eqb s "100" then (100, None)
  else (0, Some (New "invalid syntax")).

Definition test_ParseDuration (s : string) : Z * option error :=
  if String.eqb s "1s" then (Second, None)
  else if String.eqb s "5m" then (5 * Minute, None)
  else (0, Some (New "invalid duration")).

(** A clock that advances by [step] per reading. *)
Definition linear_clock (step : Z) (k : nat) : Z := Z.of_nat k * step.

(** Of the [n] readings after the first [t0], any two at most three
    readings apart are less than [window] apart.  (A decision on the Redis
    store takes three readings, for EXISTS, INCR and EXPIRE, so this bounds
    the time between a request and the next, not the time the whole run
    takes.) *)
Definition successive_within (clock : nat -> Z) (window : Z) (t0 n : nat)
    : Prop :=
  forall i j, (t0 <= j <= i)%nat -> (i <= j + 3)%nat -> (i < t0 + n)%nat ->
    clock i < clock j + window.

(** [k] requests have been counted for [key] on the server since it had
    taken [t0] readings: the counter, if any, holds [k] and expires one
    window after the last EXPIRE, and [key] carries no block. *)
Definition redis_counting (clock : nat -> Z) (key : string) (window : Z)
    (t0 k : nat) (s : RedisServer) : Prop :=
  up s = true /\
  rticks s = (t0 + 3 * k)%nat /\
  db s !! ("blocked:" ++ key) = None /\
  db s !! key
  = match k with
    | O => None
    | S _ => Some {| val := Z.of_nat k;
                     expiry := Some (clock (t0 + 3 * k - 1)%nat + window) |}
    end.

(** ** Package [middleware]

    A request is its headers and its [RemoteAddr]; [r.Header.Get(name)] is
    the value stored under [name], or the empty string (header names are
    looked up as the code writes them).  What the handler does with the
    response is one of three things: it hands the request to
    [next.ServeHTTP], it answers 429 Too Many Requests, or it answers 500
    Internal Server Error. *)
Record Request : Type := mkRequest {
  Header : gmap string string;
  RemoteAddr : string
}.

Definition Header_Get (r : Request) (name : string) : string :=
  default "" (Header r !! name).

Inductive Response : Type :=
  | Next
  | TooManyRequests
  | InternalServerError.

Record RateLimiterMiddleware : Type := mkRateLimiterMiddleware {
  rateLimiter : RateLimiter
}.

Definition NewRateLimiterMiddleware (rateLimiter : RateLimiter)
    : RateLimiterMiddleware :=
  {| rateLimiter := rateLimiter |}.

Section Middleware.
(** [strings.TrimSpace] and [net.SplitHostPort] belong to the Go library
    and are parameters. *)
Variable TrimSpace : string -> string.
Variable SplitHostPort : string -> (string * string) * option error.

Definition getClientIP (r : Request) : string :=
  let fromRemoteAddr :=
    let xRealIP := Header_Get r "X-Real-IP" in
    if negb (String.eqb xRealIP "") then xRealIP
    else
      let '((ip, _), err) := SplitHostPort (RemoteAddr r) in
      match err with
      | Some _ => RemoteAddr r
      | None => ip
      end in
  let xForwardedFor := Header_Get r "X-Forwarded-For" in
  if negb (String.eqb xForwardedFor "") then
    let ips := Split ","%char xForwardedFor in
    if (0 <? length ips)%nat then TrimSpace (nth 0 ips "")
    else fromRemoteAddr
  else fromRemoteAddr.

(** The end of the handler, once the check has returned without error. *)
Definition respond (allowed : bool) : Response :=
  if negb allowed then TooManyRequests else Next.

Context {St : Type} `{!Storage St}.

Definition Handler (m : RateLimiterMiddleware) (r : Request)
    : State St Response :=
  let ip := getClientIP r in
  let apiKey := Header_Get r "API_KEY" in
  if negb (String.eqb apiKey "") then
    '(allowed, err) ← CheckToken (rateLimiter m) apiKey;
    match err with
    | Some _ => mret InternalServerError
    | None => mret (respond allowed)
    end
  else
    '(allowed, err) ← CheckIP (rateLimiter m) ip;
    match err with
    | Some _ => mret InternalServerError
    | None => mret (respond allowed)
    end.
End Middleware.

(** The rate key of a request: the token key when the request carries a
    non-empty [API_KEY], the address key otherwise. *)
Definition rate_key (TrimSpace : string -> string)
    (SplitHostPort : string -> (string * string) * option error)
    (r : Request) : string :=
  if negb (String.eqb (Header_Get r "API_KEY") "") then
    "token:" ++ Header_Get r "API_KEY"
  else "ip:" ++ getClientIP TrimSpace SplitHostPort r.

(** The check the handler makes for a request. *)
Definition check_of {St} `{!Storage St} (TrimSpace : string -> string)
    (SplitHostPort : string -> (string * string) * option error)
    (m : RateLimiterMiddleware) (r : Request)
    : State St (bool * option error) :=
  if negb (String.eqb (Header_Get r "API_KEY") "") then
    CheckToken (rateLimiter m) (Header_Get r "API_KEY")
  else CheckIP (rateLimiter m) (getClientIP TrimSpace SplitHostPort r).

(** The response to a check result. *)
Definition response_of (res : bool * option error) : Response :=
  match res.2 with
  | Some _ => InternalServerError
  | None => respond res.1
  end.

(** Requests of the middleware tests, and library stand-ins that read
    them. *)
Definition plain_request : Request :=
  {| Header := ∅; RemoteAddr := "192.168.1.1:12345" |}.

Definition token_request (apiKey : string) : Request :=
  {| Header := {["API_KEY" := apiKey]}; RemoteAddr := "192.168.1.1:12345" |}.

Definition forwarded_request : Request :=
  {| Header := {["X-Forwarded-For" := "203.0.113.1,198.51.100.1";
                 "X-Real-IP" := "203.0.113.2"]};
     RemoteAddr := "192.168.1.1:12345" |}.

Definition test_TrimSpace (s : string) : string := s.

Definition test_SplitHostPort (s : string) : (string * string) * option error :=
  if String.eqb s "192.168.1.1:12345" then (("192.168.1.1", "12345"), None)
  else (("", ""), Some (New "missing port in address")).

(** ** The engine against an arbitrary store *)

Ltac run_state :=
  unfold mbind, mret, State_bind, State_ret, get, put in *; cbn beta iota in *.

Section EngineFacts.
Context {St : Type} `{!Storage St}.
Implicit Types (s : St) (log : list Call) (key token ip : string)
  (config : Config) (rl : RateLimiter).

Lemma Recorder_IsBlocked key s log :
  IsBlocked key (mkRecorder s log)
  = let '(r, s') := IsBlocked key s in
    (r, mkRecorder s' (log ++ [CallIsBlocked key r.1 r.2])).
Proof. reflexivity. Qed.

Lemma Recorder_Increment key window s log :
  Increment key window (mkRecorder s log)
  = let '(r, s') := Increment key window s in
    (r, mkRecorder s' (log ++ [CallIncrement key window r.1 r.2])).
Proof. reflexivity. Qed.

Lemma Recorder_Block key duration s log :
  Block key duration (mkRecorder s log)
  = let '(err, s') := Block key duration s in
    (err, mkRecorder s' (log ++ [CallBlock key duration err])).
Proof. reflexivity. Qed.

Lemma checkLimit_outcome key config s log res r :
  checkLimit key config (mkRecorder s log) = (res, r) ->
  outcome key config s log res r.
Proof.
  unfold checkLimit. run_state. rewrite Recorder_IsBlocked.
  destruct (IsBlocked key s) as [[b [e|]] s1] eqn:E1; cbn beta iota.
  { intros [= <- <-]. by eapply IsBlocked_fails. }
  destruct b; cbn beta iota.
  { intros [= <- <-]. by apply Already_blocked. }
  rewrite Recorder_Increment.
  destruct (Increment key (Window config) s1) as [[n [e|]] s2] eqn:E2;
    cbn beta iota; rewrite <- app_assoc.
  { intros [= <- <-]. by eapply Increment_fails. }
  simpl fst. destruct (Z.gtb_spec n (Requests config)) as [Hgt|Hle].
  - rewrite Recorder_Block.
    destruct (Block key (BlockTime config) s2) as [err s3] eqn:E3.
    cbn beta iota. rewrite <- app_assoc.
    pose proof (Limit_exceeded key config s log s1 n s2 err s3 E1 E2 Hgt E3) as O.
    destruct err; by intros [= <- <-].
  - intros [= <- <-]. by eapply Within_limit.
Qed.

(** Recording does not change what the engine decides nor what it does
    to the store. *)
Lemma checkLimit_recorded key config s log :
  (checkLimit key config (mkRecorder s log)).1 = (checkLimit key config s).1 /\
  store (checkLimit key config (mkRecorder s log)).2 = (checkLimit key config s).2.
Proof.
  destruct (checkLimit key config (mkRecorder s log)) as [res r] eqn:E.
  apply checkLimit_outcome in E. unfold checkLimit. run_state.
  destruct E as [b e s1 E1|s1 E1|s1 n e s2 E1 E2|s1 n s2 E1 E2 Hle
                |s1 n s2 err s3 E1 E2 Hgt E3];
    rewrite E1; cbn beta iota; rewrite ?E2; cbn beta iota; try done.
  - destruct (Z.gtb_spec n (Requests config)); [lia|done].
  - destruct (Z.gtb_spec n (Requests config)); [|lia].
    rewrite E3. by destruct err.
Qed.

Lemma checkLimit_is_blocked key config s s' :
  IsBlocked key s = ((true, None), s') ->
  checkLimit key config s = ((false, None), s').
Proof. intros H. unfold checkLimit. run_state. by rewrite H. Qed.

Lemma checkLimit_error_denied key config s :
  (checkLimit key config s).1.2 <> None ->
  (checkLimit key config s).1.1 = false.
Proof.
  unfold checkLimit. run_state.
  destruct (IsBlocked key s) as [[b [e|]] s1]; cbn beta iota; [done|].
  destruct b; cbn beta iota; [done|].
  destruct (Increment key (Window config) s1) as [[n [e|]] s2];
    cbn beta iota; [done|].
  destruct (n >? Requests config); [|done].
  by destruct (Block key (BlockTime config) s2) as [[e|] s3].
Qed.

Lemma CheckIP_error_denied rl ip s :
  (CheckIP rl ip s).1.2 <> None -> (CheckIP rl ip s).1.1 = false.
Proof. apply checkLimit_error_denied. Qed.

Lemma CheckToken_error_denied rl token s :
  (CheckToken rl token s).1.2 <> None -> (CheckToken rl token s).1.1 = false.
Proof.
  unfold CheckToken. destruct (tokens rl !! token); [|done].
  apply checkLimit_error_denied.
Qed.

Lemma CheckToken_known rl token config s :
  tokens rl !! token = Some config ->
  CheckToken rl token s = checkLimit ("token:" ++ token) config s.
Proof. intros H. unfold CheckToken. by rewrite H. Qed.

Lemma CheckToken_unknown rl token s :
  tokens rl !! token = None ->
  CheckToken rl token s = ((true, None), s).
Proof. intros H. unfold CheckToken. by rewrite H. Qed.
End EngineFacts.

(** ** The in-memory store *)

Lemma wrap64_id z : in_int64 z -> wrap64 z = z.
Proof.
  unfold in_int64, min_int64, max_int64, wrap64. intros H.
  rewrite Z.mod_small; lia.
Qed.

Section InMemoryFacts.
Context (clock : nat -> Z)
        (mem : Storage InMemoryStorage := InMemory_Storage clock).
#[local] Existing Instance mem.
Implicit Types (s : InMemoryStorage) (key : string) (config : Config).

Lemma InMemory_IsBlocked_none key s :
  blocked s !! key = None -> IsBlocked key s = ((false, None), s).
Proof.
  intros H. cbn. unfold InMemory_IsBlocked, map_read. run_state.
  by rewrite H.
Qed.

Lemma InMemory_IsBlocked_some key s t :
  blocked s !! key = Some t ->
  IsBlocked key s
  = (((clock (ticks s) <? t)%Z, None),
     {| counters := counters s; blocked := blocked s; ticks := S (ticks s) |}).
Proof.
  intros H. cbn. unfold InMemory_IsBlocked, map_read. run_state.
  by rewrite H.
Qed.

Lemma InMemory_Increment_fresh key window s :
  counters s !! key = None ->
  Increment key window s
  = ((1, None),
     {| counters := <[key := {| count := 1;
                                expireAt := clock (ticks s) + window |}]>
                      (counters s);
        blocked := blocked s; ticks := S (ticks s) |}).
Proof.
  intros H. cbn. unfold InMemory_Increment, map_read, time_Now, set_counter.
  run_state. cbn. by rewrite H.
Qed.

Lemma InMemory_Increment_expired key window s d :
  counters s !! key = Some d ->
  expireAt d <= clock (ticks s) ->
  Increment key window s
  = ((1, None),
     {| counters := <[key := {| count := 1;
                                expireAt := clock (ticks s) + window |}]>
                      (counters s);
        blocked := blocked s; ticks := S (ticks s) |}).
Proof.
  intros H Hexp. cbn. unfold InMemory_Increment, map_read, time_Now, set_counter.
  run_state. cbn. rewrite H. cbn.
  by destruct (Z.ltb_spec (clock (ticks s)) (expireAt d)); [lia|].
Qed.

Lemma InMemory_Increment_live key window s d :
  counters s !! key = Some d ->
  clock (ticks s) < expireAt d ->
  Increment key window s
  = ((wrap64 (count d + 1), None),
     {| counters := <[key := {| count := wrap64 (count d + 1);
                                expireAt := expireAt d |}]> (counters s);
        blocked := blocked s; ticks := S (ticks s) |}).
Proof.
  intros H Hlive. cbn. unfold InMemory_Increment, map_read, time_Now, set_counter.
  run_state. cbn. rewrite H. cbn.
  by destruct (Z.ltb_spec (clock (ticks s)) (expireAt d)); [|lia].
Qed.

Lemma InMemory_Block_run key duration s :
  Block key duration s
  = (None,
     {| counters := counters s;
        blocked := <[key := clock (ticks s) + duration]> (blocked s);
        ticks := S (ticks s) |}).
Proof. reflexivity. Qed.
End InMemoryFacts.

Lemma calls_snoc {St A} (m : State St A) (n : nat) (s : St) :
  calls (S n) m s
  = let '(l, s1) := calls n m s in
    let '(a, s2) := m s1 in ((l ++ [a])%list, s2).
Proof.
  revert s. induction n as [|n IH]; intros s.
  - simpl. run_state. by destruct (m s).
  - change (calls (S (S n)) m s)
      with (let '(a, s1) := m s in
            let '(l, s2) := calls (S n) m s1 in (a :: l, s2)).
    change (calls (S n) m s)
      with (let '(a, s1) := m s in
            let '(l, s2) := calls n m s1 in (a :: l, s2)).
    destruct (m s) as [a s1]. rewrite IH.
    destruct (calls n m s1) as [l s2]. by destruct (m s2).
Qed.

Section OneWindow.
Context (clock : nat -> Z)
        (mem : Storage InMemoryStorage := InMemory_Storage clock).
#[local] Existing Instance mem.
Context (key : string) (config : Config) (t0 M : nat).
Hypothesis one_window : within_one_window clock config t0 M.
Hypothesis limit_countable : Requests config < max_int64.

Lemma counting_Increment k s :
  counting clock key config t0 k s ->
  Z.of_nat k <= Requests config ->
  (k <= M)%nat ->
  exists s',
    Increment key (Window config) s = ((Z.of_nat (S k), None), s') /\
    counting clock key config t0 (S k) s'.
Proof.
  intros (Ht & Hb & Hc) Hk HM. unfold mem.
  destruct (counters s !! key) as [d|] eqn:E.
  - destruct Hc as (Hd & Hpos & Hexp).
    rewrite (InMemory_Increment_live _ _ _ _ d); [|done|].
    + rewrite Hd, wrap64_id
        by (unfold in_int64, min_int64, max_int64 in *; lia).
      eexists. split; [f_equal; f_equal; lia|].
      split; [cbn; lia|]. split; [done|].
      cbn. rewrite lookup_insert_eq. cbn.
      repeat split; [lia|lia|done].
    + rewrite Hexp, Ht. apply one_window. lia.
  - subst k. rewrite InMemory_Increment_fresh by done.
    eexists. split; [done|].
    split; [cbn; lia|]. split; [done|].
    cbn. rewrite lookup_insert_eq. cbn.
    repeat split; [lia|]. by rewrite Ht, Nat.add_0_r.
Qed.

Lemma checkLimit_within_limit k s log :
  counting clock key config t0 k s ->
  Z.of_nat (S k) <= Requests config ->
  (k <= M)%nat ->
  exists s',
    checkLimit key config (mkRecorder s log)
    = ((true, None), mkRecorder s' (log ++ allowed_log key config k 1)) /\
    counting clock key config t0 (S k) s'.
Proof.
  intros Hc Hk HM.
  destruct (counting_Increment k s Hc) as (s' & Hinc & Hc'); [lia|done|].
  exists s'. split; [|done]. unfold mem in *.
  unfold checkLimit. run_state. rewrite Recorder_IsBlocked.
  rewrite InMemory_IsBlocked_none by apply Hc. cbn beta iota.
  rewrite Recorder_Increment, Hinc. cbn beta iota. simpl fst.
  destruct (Z.gtb_spec (Z.of_nat (S k)) (Requests config)); [lia|].
  by rewrite <- app_assoc.
Qed.

Lemma checkLimit_exceeds_limit k s log :
  counting clock key config t0 k s ->
  Z.of_nat k = Requests config ->
  (k <= M)%nat ->
  exists s',
    checkLimit key config (mkRecorder s log)
    = ((false, None), mkRecorder s' (log ++ denied_log key config k)) /\
    blocked s' !! key = Some (clock (t0 + S k) + BlockTime config).
Proof.
  intros Hc Hk HM.
  destruct (counting_Increment k s Hc) as (s' & Hinc & Hc'); [lia|done|].
  unfold mem in *. eexists. split.
  - unfold checkLimit. run_state. rewrite Recorder_IsBlocked.
    rewrite InMemory_IsBlocked_none by apply Hc. cbn beta iota.
    rewrite Recorder_Increment, Hinc. cbn beta iota. simpl fst.
    destruct (Z.gtb_spec (Z.of_nat (S k)) (Requests config)); [|lia].
    rewrite Recorder_Block, InMemory_Block_run. cbn beta iota.
    by rewrite <- !app_assoc.
  - cbn. destruct Hc' as (-> & _). by rewrite lookup_insert_eq.
Qed.

Lemma calls_within_limit m k s log :
  counting clock key config t0 k s ->
  Z.of_nat (k + m) <= Requests config ->
  (k + m <= S M)%nat ->
  exists s',
    calls m (checkLimit key config) (mkRecorder s log)
    = (repeat (true, None) m,
       mkRecorder s' (log ++ allowed_log key config k m)) /\
    counting clock key config t0 (k + m) s'.
Proof.
  revert k s log. induction m as [|m IH]; intros k s log Hc Hk HM.
  - exists s. rewrite Nat.add_0_r. split; [|done].
    unfold allowed_log. simpl. by rewrite app_nil_r.
  - destruct (checkLimit_within_limit k s log Hc) as (s1 & E1 & Hc1);
      [lia|lia|].
    destruct (IH (S k) s1 (log ++ allowed_log key config k 1)%list Hc1)
      as (s2 & E2 & Hc2); [lia|lia|].
    exists s2. split; [|by rewrite Nat.add_succ_r].
    change (calls (S m) (checkLimit key config) (mkRecorder s log))
      with (let '(a, r1) := checkLimit key config (mkRecorder s log) in
            let '(l, r2) := calls m (checkLimit key config) r1 in
            (a :: l, r2)).
    rewrite E1, E2. by rewrite <- app_assoc.
Qed.
End OneWindow.

(** ** The decision algorithm *)

Section Decision.
Context {St : Type} `{!Storage St}.
Implicit Types (s : St) (log : list Call) (key token ip : string)
  (config : Config) (rl : RateLimiter).

(** C2. When the store reports [key] as blocked, [checkLimit] returns
    denied with a nil error and does nothing more: the store is left as
    the [IsBlocked] query left it, and that query is the only store
    operation of the call (no [Increment], no [Block]). *)
Theorem checkLimit_blocked_no_further_mutation key config s s' log :
  IsBlocked key s = ((true, None), s') ->
  checkLimit key config s = ((false, None), s') /\
  checkLimit key config (mkRecorder s log)
  = ((false, None), mkRecorder s' (log ++ [CallIsBlocked key true None])).
Proof.
  intros H. split; [by apply checkLimit_is_blocked|].
  unfold checkLimit. run_state. by rewrite Recorder_IsBlocked, H.
Qed.

(** C3. When [key] is not blocked and the post-increment count is [n],
    [checkLimit] allows the request if and only if [n <= Requests]; a
    count equal to the limit is allowed; and exactly when
    [n > Requests] it calls [Block key BlockTime], after the increment
    and before returning denied. *)
Theorem checkLimit_allows_iff_within_limit key config s s1 s2 n log :
  IsBlocked key s = ((false, None), s1) ->
  Increment key (Window config) s1 = ((n, None), s2) ->
  ((checkLimit key config (mkRecorder s log)).1.1 = true
   <-> n <= Requests config) /\
  (n = Requests config ->
   (checkLimit key config (mkRecorder s log)).1 = (true, None)) /\
  (n <= Requests config ->
   checkLimit key config (mkRecorder s log)
   = ((true, None),
      mkRecorder s2 (log ++ [CallIsBlocked key false None;
                             CallIncrement key (Window config) n None]))) /\
  (Requests config < n ->
   exists err s3,
     Block key (BlockTime config) s2 = (err, s3) /\
     checkLimit key config (mkRecorder s log)
     = ((false, Errorf "falha ao bloquear chave" <$> err),
        mkRecorder s3 (log ++ [CallIsBlocked key false None;
                               CallIncrement key (Window config) n None;
                               CallBlock key (BlockTime config) err]))).
Proof.
  intros E1 E2.
  destruct (checkLimit key config (mkRecorder s log)) as [res r] eqn:E.
  apply checkLimit_outcome in E.
  destruct E as [b e t1 F1|t1 F1|t1 m e t2 F1 F2|t1 m t2 F1 F2 Hle
                |t1 m t2 err t3 F1 F2 Hgt F3];
    rewrite E1 in F1; try discriminate; injection F1 as <-;
    rewrite E2 in F2; try discriminate; injection F2 as <- <-.
  - repeat split; try done; intros; lia.
  - repeat split; try (intros; simpl in *; (discriminate || lia)).
    intros _. by exists err, t3.
Qed.

(** C4. For a token with no registered configuration, [CheckToken]
    returns allowed with a nil error and performs no store operation:
    the store and the log of its operations are returned unchanged. *)
Theorem CheckToken_unknown_token_allowed rl token s log :
  tokens rl !! token = None ->
  CheckToken rl token s = ((true, None), s) /\
  CheckToken rl token (mkRecorder s log) = ((true, None), mkRecorder s log).
Proof. intros H. split; by apply CheckToken_unknown. Qed.

(** C8. [checkLimit] returns a non-nil error if and only if one of the
    store operations of that call failed; the call performs each of
    [IsBlocked], [Increment] and [Block] at most once; and a failure is
    returned as an error wrapping the store's error, with recording
    changing nothing of the result. *)
Theorem checkLimit_error_iff_store_failure key config s log :
  let res := (checkLimit key config (mkRecorder s log)).1 in
  let r := (checkLimit key config (mkRecorder s log)).2 in
  let new := new_calls log r in
  res = (checkLimit key config s).1 /\
  Calls r = (log ++ new)%list /\
  (res.2 <> None <-> Exists failed new) /\
  (count_calls is_IsBlocked new <= 1 /\
   count_calls is_Increment new <= 1 /\
   count_calls is_Block new <= 1)%nat /\
  (forall c e, c ∈ new -> call_err c = Some e ->
     exists prefix, res = (false, Some (Errorf prefix e))).
Proof.
  intros res r new.
  split; [apply checkLimit_recorded|].
  subst res r new.
  destruct (checkLimit key config (mkRecorder s log)) as [res r] eqn:E.
  apply checkLimit_outcome in E. unfold new_calls, count_calls.
  destruct E as [b e s1 E1|s1 E1|s1 n e s2 E1 E2|s1 n s2 E1 E2 Hle
                |s1 n s2 [e|] s3 E1 E2 Hgt E3];
    cbn [fst snd Calls]; rewrite drop_app_length;
    (split; [done|]); (split; [|split; [cbn; lia|]]).
  all: try (rewrite ?Exists_cons, ?Exists_nil; unfold failed;
            rewrite ?is_Some_alt; cbn; intuition congruence).
  all: intros c e0 Hc Hce;
    repeat (apply elem_of_cons in Hc as [->|Hc]);
    try (by apply elem_of_nil in Hc);
    cbn in Hce; try discriminate;
    injection Hce as ->; by eexists.
Qed.
(** C9. Whenever [checkLimit], [CheckIP] or [CheckToken] returns a
    non-nil error, the boolean it returns with it is [false]. *)
Theorem error_implies_not_allowed rl key config ip token s allowed err s' :
  checkLimit key config s = ((allowed, err), s') \/
  CheckIP rl ip s = ((allowed, err), s') \/
  CheckToken rl token s = ((allowed, err), s') ->
  err <> None ->
  allowed = false.
Proof.
  intros [H|[H|H]] Herr.
  - pose proof (checkLimit_error_denied key config s) as D.
    rewrite H in D. by apply D.
  - pose proof (CheckIP_error_denied rl ip s) as D.
    rewrite H in D. by apply D.
  - pose proof (CheckToken_error_denied rl token s) as D.
    rewrite H in D. by apply D.
Qed.

(** C10. The empty string is a token like any other: while no
    configuration is registered for it, [CheckToken ""] returns allowed
    with a nil error and leaves the store (and the log of its
    operations) untouched; once [AddTokenConfig "" config] has
    registered one, [CheckToken ""] is [checkLimit] under the key
    ["token:"] with that configuration. *)
Theorem empty_token_not_special rl config s log :
  tokens rl !! "" = None ->
  CheckToken rl "" s = ((true, None), s) /\
  CheckToken rl "" (mkRecorder s log) = ((true, None), mkRecorder s log) /\
  tokens (AddTokenConfig "" config rl) !! "" = Some config /\
  CheckToken (AddTokenConfig "" config rl) "" s = checkLimit "token:" config s.
Proof.
  intros H. repeat split; try by apply CheckToken_unknown.
  - apply lookup_insert_eq.
  - apply CheckToken_known. apply lookup_insert_eq.
Qed.
End Decision.

(** ** The configuration registry *)

(** C6 (as the code has it). Registration validates nothing:
    [NewRateLimiter] and [AddTokenConfig] accept every configuration,
    whatever its request limit and window, store it as given, and that
    configuration is the one the checks then use. *)
Theorem registration_accepts_every_config {St} `{!Storage St}
    (config : Config) (token ip : string) (rl : RateLimiter) (s : St) :
  ipConfig (NewRateLimiter config) = config /\
  tokens (AddTokenConfig token config rl) !! token = Some config /\
  CheckIP (NewRateLimiter config) ip s = checkLimit ("ip:" ++ ip) config s /\
  CheckToken (AddTokenConfig token config rl) token s
  = checkLimit ("token:" ++ token) config s.
Proof.
  repeat split.
  - apply lookup_insert_eq.
  - apply CheckToken_known. apply lookup_insert_eq.
Qed.

(** C6, counterexample. A configuration with request limit 0 and window 0
    is registered, as the default scope and as a named scope, although it
    violates the invariant. *)
Lemma invalid_config_is_registered :
  ~ valid_config zero_config /\
  ipConfig (NewRateLimiter zero_config) = zero_config /\
  tokens (AddTokenConfig "abc123" zero_config (NewRateLimiter zero_config))
    !! "abc123" = Some zero_config.
Proof.
  split; [|split].
  - unfold valid_config, zero_config. simpl. lia.
  - reflexivity.
  - apply lookup_insert_eq.
Qed.

(** ** Counting within one window (in-memory store) *)

Section Recorded.
Context {St : Type} `{!Storage St}.

(** A recorded run of consecutive decisions returns what the plain run
    returns and leaves the store as the plain run leaves it. *)
Lemma calls_recorded (key : string) (config : Config) (n : nat)
    (s : St) (log : list Call) :
  (calls n (checkLimit key config) (mkRecorder s log)).1
  = (calls n (checkLimit key config) s).1 /\
  store (calls n (checkLimit key config) (mkRecorder s log)).2
  = (calls n (checkLimit key config) s).2.
Proof.
  revert s log. induction n as [|n IH]; intros s log; [done|].
  change (calls (S n) (checkLimit key config) (mkRecorder s log))
    with (let '(a, r1) := checkLimit key config (mkRecorder s log) in
          let '(l, r2) := calls n (checkLimit key config) r1 in
          (a :: l, r2)).
  change (calls (S n) (checkLimit key config) s)
    with (let '(a, s1) := checkLimit key config s in
          let '(l, s2) := calls n (checkLimit key config) s1 in
          (a :: l, s2)).
  destruct (checkLimit_recorded key config s log) as [R1 R2].
  destruct (checkLimit key config (mkRecorder s log)) as [a [s1 log1]].
  destruct (checkLimit key config s) as [a' s1']. simpl in R1, R2. subst.
  destruct (IH s1' log1) as [I1 I2].
  destruct (calls n (checkLimit key config) (mkRecorder s1' log1)) as [l r2].
  destruct (calls n (checkLimit key config) s1') as [l' s2'].
  simpl in *. by subst.
Qed.
End Recorded.

Section LimitReached.
Context (clock : nat -> Z)
        (mem : Storage InMemoryStorage := InMemory_Storage clock).
#[local] Existing Instance mem.

Lemma calls_allowed_then_denied (key : string) (config : Config) (N : nat)
    (s : InMemoryStorage) (log : list Call) :
  within_one_window clock config (ticks s) N ->
  Requests config < max_int64 ->
  Requests config = Z.of_nat N ->
  counting clock key config (ticks s) 0 s ->
  exists s',
    calls (S N) (checkLimit key config) (mkRecorder s log)
    = ((repeat (true, None) N ++ [(false, None)])%list,
       mkRecorder s' (log ++ allowed_log key config 0 N
                          ++ denied_log key config N)) /\
    blocked s' !! key = Some (clock (ticks s + S N) + BlockTime config).
Proof.
  intros Hw Hmax HN Hc.
  destruct (calls_within_limit clock key config (ticks s) N Hw Hmax
              N 0 s log Hc)
    as (s1 & E1 & Hc1); [simpl; lia|simpl; lia|].
  destruct (checkLimit_exceeds_limit clock key config (ticks s) N Hw Hmax
              N s1 (log ++ allowed_log key config 0 N) Hc1)
    as (s2 & E2 & Hb); [lia|lia|].
  exists s2. split; [|done].
  rewrite calls_snoc. unfold mem in *. rewrite E1, E2.
  by rewrite <- app_assoc.
Qed.

(** C1. On a key with no block and no counter, [N + 1] consecutive
    decisions taken within one window, [N] being the request limit (and
    a count the [int64] counter can exceed), are allowed [N] times and
    then denied; the store operations are [N] times a block query and
    an increment returning 1, 2, ..., [N], then a block query, the
    increment returning [N + 1] and [Block key BlockTime]; afterwards
    the store holds a block for the key, lasting [BlockTime]. *)
Theorem checkLimit_denies_request_N_plus_1 (key : string) (config : Config)
    (N : nat) (s : InMemoryStorage) :
  Requests config = Z.of_nat N ->
  Requests config < max_int64 ->
  within_one_window clock config (ticks s) N ->
  counters s !! key = None ->
  blocked s !! key = None ->
  exists s',
    calls (S N) (checkLimit key config) (mkRecorder s [])
    = ((repeat (true, None) N ++ [(false, None)])%list,
       mkRecorder s' (allowed_log key config 0 N ++ denied_log key config N)) /\
    (calls (S N) (checkLimit key config) s).1
    = (repeat (true, None) N ++ [(false, None)])%list /\
    blocked s' !! key = Some (clock (ticks s + S N) + BlockTime config).
Proof.
  intros HN Hmax Hw Hcnt Hblk.
  destruct (calls_allowed_then_denied key config N s [] Hw Hmax HN)
    as (s' & E & Hb).
  { split; [lia|]. split; [done|]. by rewrite Hcnt. }
  exists s'. split; [done|]. split; [|done].
  destruct (calls_recorded key config (S N) s []) as [R _].
  unfold mem in *. by rewrite <- R, E.
Qed.
End LimitReached.

Section BlockedKey.
Context (clock : nat -> Z)
        (mem : Storage InMemoryStorage := InMemory_Storage clock).
#[local] Existing Instance mem.

(** On the in-memory store a decision on a blocked key leaves every
    counter and every block as it was; only the clock has been read. *)
Lemma InMemory_blocked_key_untouched (key : string) (config : Config)
    (s : InMemoryStorage) (blockedUntil : Z) :
  blocked s !! key = Some blockedUntil ->
  clock (ticks s) < blockedUntil ->
  checkLimit key config s
  = ((false, None),
     {| counters := counters s; blocked := blocked s;
        ticks := S (ticks s) |}).
Proof.
  intros Hb Hlt. apply checkLimit_is_blocked. unfold mem.
  rewrite (InMemory_IsBlocked_some _ _ _ blockedUntil) by done.
  by destruct (Z.ltb_spec (clock (ticks s)) blockedUntil); [|lia].
Qed.
End BlockedKey.

(** ** Token scopes *)

(** C7. For a token with a registered configuration, [CheckToken] is
    [checkLimit] under the key ["token:" ++ token] with that token's
    configuration, whatever the address-scope configuration is; and with
    an address limit of 1 and a token limit of 3, three consecutive
    [CheckToken] calls for the token within one window, on a fresh
    in-memory store, are all allowed. *)
Theorem CheckToken_uses_token_scope {St} `{!Storage St}
    (rl : RateLimiter) (token : string) (config : Config) (s : St)
    (clock : nat -> Z) (ipc tokc : Config) :
  tokens rl !! token = Some config ->
  Requests ipc = 1 ->
  Requests tokc = 3 ->
  within_one_window clock tokc 0 2 ->
  CheckToken rl token s = checkLimit ("token:" ++ token) config s /\
  (forall ipConfig',
     CheckToken {| ipConfig := ipConfig'; tokens := tokens rl |} token s
     = CheckToken rl token s) /\
  (calls 3
     (CheckToken
        (Storage0 := Recorder_Storage (Storage0 := InMemory_Storage clock))
        (AddTokenConfig token tokc (NewRateLimiter ipc)) token)
     (mkRecorder NewInMemoryStorage [])).1
  = [(true, None); (true, None); (true, None)].
Proof.
  intros Hreg Hip Htok Hw. split; [by apply CheckToken_known|]. split.
  - intros ipConfig'. unfold CheckToken. simpl. by rewrite Hreg.
  - unfold CheckToken, AddTokenConfig. simpl tokens.
    rewrite lookup_insert_eq.
    destruct (calls_within_limit clock ("token:" ++ token) tokc 0 2 Hw
                ltac:(rewrite Htok; unfold max_int64; lia)
                3 0 NewInMemoryStorage [])
      as (s' & E & _).
    + split; [done|]. split; [done|]. cbn. by rewrite lookup_empty.
    + rewrite Htok. simpl. lia.
    + lia.
    + by rewrite E.
Qed.

(** ** The expiry of a counter *)

Section Expiry.
Context (clock : nat -> Z).

(** The in-memory store sets a counter's expiry on the first write of
    a window only: an increment on a live counter adds one to the count
    and keeps the expiry. *)
Lemma InMemory_Increment_keeps_expiry (key : string) (window : Z)
    (s : InMemoryStorage) (d : countData) :
  counters s !! key = Some d ->
  clock (ticks s) < expireAt d ->
  count d < max_int64 ->
  min_int64 <= count d ->
  exists s',
    InMemory_Increment clock key window s = ((count d + 1, None), s') /\
    counters s' !! key
    = Some {| count := count d + 1; expireAt := expireAt d |}.
Proof.
  intros Hd Hlive Hmax Hmin.
  pose proof (InMemory_Increment_live clock key window s d Hd Hlive) as E.
  cbn in E. rewrite E.
  rewrite wrap64_id by (unfold in_int64, min_int64, max_int64 in *; lia).
  eexists. split; [done|]. cbn. by rewrite lookup_insert_eq.
Qed.

Lemma InMemory_Increment_sets_expiry_on_first_write (key : string)
    (window : Z) (s : InMemoryStorage) :
  counters s !! key = None ->
  exists s',
    InMemory_Increment clock key window s = ((1, None), s') /\
    counters s' !! key
    = Some {| count := 1; expireAt := clock (ticks s) + window |}.
Proof.
  intros Hd.
  pose proof (InMemory_Increment_fresh clock key window s Hd) as E.
  cbn in E. rewrite E. eexists. split; [done|].
  cbn. by rewrite lookup_insert_eq.
Qed.

(** [RedisStorage.Increment] sends EXPIRE with every INCR: on a live
    counter the expiry becomes the instant of the EXPIRE plus the
    window, whatever it was. *)
Lemma Redis_Increment_resets_expiry (key : string) (window : Z)
    (s : RedisServer) (e : entry) :
  up s = true ->
  db s !! key = Some e ->
  live (clock (rticks s)) e = true ->
  live (clock (S (rticks s))) e = true ->
  val e < max_int64 ->
  0 < window ->
  exists s',
    Redis_Increment clock key window s = ((val e + 1, None), s') /\
    db s' !! key
    = Some {| val := val e + 1;
              expiry := Some (clock (S (rticks s)) + window) |}.
Proof.
  intros Hup He Hlive Hlive' Hmax Hw.
  unfold Redis_Increment, INCR, EXPIRE, command. run_state.
  rewrite Hup. unfold live_entry at 1. rewrite He, Hlive.
  destruct (Z.leb_spec max_int64 (val e)); [lia|].
  cbn. unfold live_entry. rewrite lookup_insert_eq.
  unfold live in *. cbn. rewrite Hlive'.
  destruct (Z.leb_spec window 0); [lia|].
  cbn. eexists. split; [done|]. cbn. by rewrite lookup_insert_eq.
Qed.
End Expiry.

(** C5. [RedisStorage.Increment] moves the expiry of a live counter.  Two
    increments of the same key with a window of one second, the first at
    instant 0 and the second at 500ms: the first returns 1 and sets the
    expiry to 1s; the second returns 2 and moves the expiry to 1.5s. *)
Theorem Redis_Increment_extends_window :
  let key := "ip:192.168.1.1" in
  let run1 := Redis_Increment (step_clock 2) key Second empty_server in
  let run2 := Redis_Increment (step_clock 2) key Second run1.2 in
  run1.1 = (1, None) /\
  db run1.2 !! key = Some {| val := 1; expiry := Some Second |} /\
  run2.1 = (2, None) /\
  db run2.2 !! key = Some {| val := 2; expiry := Some (500000000 + Second) |}.
Proof. vm_compute. repeat split. Qed.

(** The in-memory store on the same two increments keeps the expiry of
    the first. *)
Example InMemory_Increment_same_increments :
  let key := "ip:192.168.1.1" in
  let run1 := InMemory_Increment (step_clock 1) key Second NewInMemoryStorage in
  let run2 := InMemory_Increment (step_clock 1) key Second run1.2 in
  run1.1 = (1, None) /\
  counters run1.2 !! key = Some {| count := 1; expireAt := Second |} /\
  run2.1 = (2, None) /\
  counters run2.2 !! key = Some {| count := 2; expireAt := Second |}.
Proof. vm_compute. repeat split. Qed.

(** The scenario of the specification: limit 3, window 1s, block 60s;
    five calls a millisecond apart give allowed, allowed, allowed, denied,
    denied, and the fifth call only queries the block. *)
Example five_rapid_calls :
  let run := calls 5
    (checkLimit (Storage0 := Recorder_Storage (Storage0 := InMemory_Storage ms_clock))
       "ip:192.168.1.1" test_config)
    (mkRecorder NewInMemoryStorage []) in
  run.1 = [(true, None); (true, None); (true, None); (false, None); (false, None)] /\
  Calls run.2
  = (allowed_log "ip:192.168.1.1" test_config 0 3
     ++ denied_log "ip:192.168.1.1" test_config 3
     ++ [CallIsBlocked "ip:192.168.1.1" true None])%list /\
  counters (store run.2) !! "ip:192.168.1.1"
  = Some {| count := 4; expireAt := Second |}.
Proof. vm_compute. repeat split. Qed.

(** A decision against a server whose connection is down fails, and the
    error wraps the store's. *)
Example checkLimit_on_down_server :
  checkLimit (Storage0 := Redis_Storage ms_clock)
    "ip:192.168.1.1" test_config down_server
  = ((false,
      Some (Errorf "falha ao verificar se está bloqueado"
              (Errorf "falha ao verificar se a chave está bloqueada"
                 (New "connection refused")))),
     down_server).
Proof. reflexivity. Qed.

(** ** Runs on the data of the tests *)

Lemma checkLimit_denies_request_N_plus_1_witness :
  exists s',
    calls 4
      (checkLimit
         (Storage0 := Recorder_Storage (Storage0 := InMemory_Storage ms_clock))
         "ip:192.168.1.1" test_config)
      (mkRecorder NewInMemoryStorage [])
    = ((repeat (true, None) 3 ++ [(false, None)])%list,
       mkRecorder s' (allowed_log "ip:192.168.1.1" test_config 0 3
                      ++ denied_log "ip:192.168.1.1" test_config 3)) /\
    (calls 4
       (checkLimit (Storage0 := InMemory_Storage ms_clock)
          "ip:192.168.1.1" test_config)
       NewInMemoryStorage).1
    = (repeat (true, None) 3 ++ [(false, None)])%list /\
    blocked s' !! "ip:192.168.1.1"
    = Some (ms_clock (ticks NewInMemoryStorage + 4) + BlockTime test_config).
Proof.
  apply (checkLimit_denies_request_N_plus_1 ms_clock
           "ip:192.168.1.1" test_config 3 NewInMemoryStorage).
  - reflexivity.
  - vm_compute. reflexivity.
  - intros j Hj. unfold ms_clock, test_config, Second. simpl in *. lia.
  - reflexivity.
  - reflexivity.
Defined.

Lemma checkLimit_blocked_no_further_mutation_witness :
  checkLimit (Storage0 := InMemory_Storage ms_clock)
    "ip:192.168.1.1" test_config blocked_store
  = ((false, None),
     {| counters := counters blocked_store; blocked := blocked blocked_store;
        ticks := 1 |}) /\
  checkLimit
    (Storage0 := Recorder_Storage (Storage0 := InMemory_Storage ms_clock))
    "ip:192.168.1.1" test_config (mkRecorder blocked_store [])
  = ((false, None),
     mkRecorder
       {| counters := counters blocked_store; blocked := blocked blocked_store;
          ticks := 1 |}
       [CallIsBlocked "ip:192.168.1.1" true None]).
Proof.
  apply (checkLimit_blocked_no_further_mutation
           (Storage0 := InMemory_Storage ms_clock)
           "ip:192.168.1.1" test_config blocked_store _ []).
  vm_compute. reflexivity.
Defined.

Lemma checkLimit_allows_iff_within_limit_witness :
  (checkLimit
     (Storage0 := Recorder_Storage (Storage0 := InMemory_Storage ms_clock))
     "ip:192.168.1.1" test_config (mkRecorder NewInMemoryStorage [])).1.1 = true
  <-> 1 <= Requests test_config.
Proof.
  apply (checkLimit_allows_iff_within_limit
           (Storage0 := InMemory_Storage ms_clock)
           "ip:192.168.1.1" test_config NewInMemoryStorage NewInMemoryStorage
           (InMemory_Increment ms_clock "ip:192.168.1.1" Second
              NewInMemoryStorage).2
           1 []).
  - vm_compute. reflexivity.
  - vm_compute. reflexivity.
Defined.

Lemma CheckToken_unknown_token_allowed_witness :
  CheckToken (Storage0 := InMemory_Storage ms_clock)
    (NewRateLimiter test_config) "invalid_token" NewInMemoryStorage
  = ((true, None), NewInMemoryStorage) /\
  CheckToken
    (Storage0 := Recorder_Storage (Storage0 := InMemory_Storage ms_clock))
    (NewRateLimiter test_config) "invalid_token"
    (mkRecorder NewInMemoryStorage [])
  = ((true, None), mkRecorder NewInMemoryStorage []).
Proof.
  apply (CheckToken_unknown_token_allowed
           (Storage0 := InMemory_Storage ms_clock)
           (NewRateLimiter test_config) "invalid_token" NewInMemoryStorage []).
  vm_compute. reflexivity.
Defined.

Lemma CheckToken_uses_token_scope_witness :
  (calls 3
     (CheckToken
        (Storage0 := Recorder_Storage (Storage0 := InMemory_Storage ms_clock))
        (AddTokenConfig "abc123" test_config (NewRateLimiter low_ip_config))
        "abc123")
     (mkRecorder NewInMemoryStorage [])).1
  = [(true, None); (true, None); (true, None)].
Proof.
  apply (CheckToken_uses_token_scope
           (Storage0 := InMemory_Storage ms_clock)
           override_limiter "abc123" test_config NewInMemoryStorage
           ms_clock low_ip_config test_config).
  - vm_compute. reflexivity.
  - reflexivity.
  - reflexivity.
  - intros j Hj. unfold ms_clock, test_config, Second. simpl in *. lia.
Defined.

Lemma error_implies_not_allowed_witness :
  (checkLimit (Storage0 := Redis_Storage ms_clock)
     "ip:192.168.1.1" test_config down_server).1.2 <> None /\
  (checkLimit (Storage0 := Redis_Storage ms_clock)
     "ip:192.168.1.1" test_config down_server).1.1 = false.
Proof.
  split; [vm_compute; discriminate|].
  eapply (error_implies_not_allowed
            (Storage0 := Redis_Storage ms_clock)
            (NewRateLimiter test_config) "ip:192.168.1.1" test_config
            "192.168.1.1" "abc123" down_server).
  - left. vm_compute. reflexivity.
  - discriminate.
Defined.

Lemma empty_token_not_special_witness :
  CheckToken (Storage0 := InMemory_Storage ms_clock)
    (NewRateLimiter low_ip_config) "" NewInMemoryStorage
  = ((true, None), NewInMemoryStorage) /\
  CheckToken
    (Storage0 := Recorder_Storage (Storage0 := InMemory_Storage ms_clock))
    (NewRateLimiter low_ip_config) "" (mkRecorder NewInMemoryStorage [])
  = ((true, None), mkRecorder NewInMemoryStorage []) /\
  tokens (AddTokenConfig "" test_config (NewRateLimiter low_ip_config)) !! ""
  = Some test_config /\
  CheckToken (Storage0 := InMemory_Storage ms_clock)
    (AddTokenConfig "" test_config (NewRateLimiter low_ip_config)) ""
    NewInMemoryStorage
  = checkLimit (Storage0 := InMemory_Storage ms_clock)
      "token:" test_config NewInMemoryStorage.
Proof.
  apply (empty_token_not_special
           (Storage0 := InMemory_Storage ms_clock)
           (NewRateLimiter low_ip_config) test_config NewInMemoryStorage []).
  vm_compute. reflexivity.
Defined.

(** ** The registry, further *)

(** X1. Registering a token again replaces its configuration as a whole, and
    registrations of different tokens can be made in either order. *)
Theorem AddTokenConfig_replaces_and_commutes (t t' : string) (c c' : Config)
    (rl : RateLimiter) :
  AddTokenConfig t c' (AddTokenConfig t c rl) = AddTokenConfig t c' rl /\
  (t <> t' ->
   AddTokenConfig t c (AddTokenConfig t' c' rl)
   = AddTokenConfig t' c' (AddTokenConfig t c rl)).
Proof.
  unfold AddTokenConfig. simpl. split.
  - by rewrite insert_insert_eq.
  - intros Hne. f_equal. by apply insert_insert_ne.
Qed.

Lemma AddTokenConfig_replaces_and_commutes_witness :
  AddTokenConfig "abc123" test_config
    (AddTokenConfig "xyz789" low_ip_config (NewRateLimiter low_ip_config))
  = AddTokenConfig "xyz789" low_ip_config
      (AddTokenConfig "abc123" test_config (NewRateLimiter low_ip_config)).
Proof.
  apply (AddTokenConfig_replaces_and_commutes "abc123" "xyz789"
           test_config low_ip_config (NewRateLimiter low_ip_config)).
  discriminate.
Defined.

Section RegistryChecks.
Context {St : Type} `{!Storage St}.

(** X2. Registering a token changes neither the address check nor the check
    of any other token. *)
Theorem AddTokenConfig_other_checks_unchanged (t t' ip : string) (c : Config)
    (rl : RateLimiter) (s : St) :
  t <> t' ->
  CheckIP (AddTokenConfig t c rl) ip s = CheckIP rl ip s /\
  CheckToken (AddTokenConfig t c rl) t' s = CheckToken rl t' s.
Proof.
  intros Hne. split; [done|].
  unfold CheckToken, AddTokenConfig. simpl. by rewrite lookup_insert_ne.
Qed.


(** X4. Every store operation of an address check carries the key
    ["ip:" ++ ip], every store operation of a token check the key
    ["token:" ++ token], and the two keys are never the same. *)
Theorem ip_and_token_keys_disjoint (rl : RateLimiter) (ip token : string)
    (s s' : St) (log log' : list Call) :
  Forall (fun c => call_key c = Some ("ip:" ++ ip))
    (new_calls log (CheckIP rl ip (mkRecorder s log)).2) /\
  Forall (fun c => call_key c = Some ("token:" ++ token))
    (new_calls log' (CheckToken rl token (mkRecorder s' log')).2) /\
  "ip:" ++ ip <> "token:" ++ token.
Proof.
  assert (forall key config (s0 : St) log0,
            Forall (fun c => call_key c = Some key)
              (new_calls log0 (checkLimit key config (mkRecorder s0 log0)).2))
    as Hkey.
  { intros key config s0 log0.
    destruct (checkLimit key config (mkRecorder s0 log0)) as [res r] eqn:E.
    apply checkLimit_outcome in E. unfold new_calls.
    destruct E; cbn [snd Calls]; rewrite drop_app_length;
      repeat constructor. }
  split; [apply Hkey|]. split; [|discriminate].
  unfold CheckToken. destruct (tokens rl !! token); [apply Hkey|].
  unfold new_calls. cbn. rewrite drop_all. constructor.
Qed.
End RegistryChecks.

(** ** What a decision preserves *)

Section Preservation.
Context {St : Type} `{!Storage St}.
Context (R : St -> St -> Prop).
Hypothesis R_refl : forall s, R s s.
Hypothesis R_trans : forall a b c, R a b -> R b c -> R a c.

(** A relation between the store before and after that the three
    operations on [key] keep is kept by a decision on [key]. *)
Lemma checkLimit_preserves (key : string) (config : Config) :
  (forall s, R s (IsBlocked key s).2) ->
  (forall s, R s (Increment key (Window config) s).2) ->
  (forall s, R s (Block key (BlockTime config) s).2) ->
  forall s, R s (checkLimit key config s).2.
Proof.
  intros H1 H2 H3 s. unfold checkLimit. run_state.
  specialize (H1 s).
  destruct (IsBlocked key s) as [[b [e|]] s1]; cbn beta iota; [done|].
  destruct b; cbn beta iota; [done|].
  specialize (H2 s1).
  destruct (Increment key (Window config) s1) as [[n [e|]] s2];
    cbn beta iota; [by eapply R_trans|].
  destruct (n >? Requests config); [|by eapply R_trans].
  specialize (H3 s2).
  destruct (Block key (BlockTime config) s2) as [[e|] s3]; cbn beta iota;
    eapply R_trans; [done| |done|]; by eapply R_trans.
Qed.

Lemma calls_preserves {A} (m : State St A) (n : nat) :
  (forall s, R s (m s).2) -> forall s, R s (calls n m s).2.
Proof.
  intros Hm. induction n as [|n IH]; intros s; [apply R_refl|].
  change (calls (S n) m s)
    with (let '(a, s1) := m s in
          let '(l, s2) := calls n m s1 in (a :: l, s2)).
  specialize (Hm s). destruct (m s) as [a s1].
  specialize (IH s1). destruct (calls n m s1) as [l s2].
  by eapply R_trans.
Qed.
End Preservation.

(** ** The in-memory store, further *)

Lemma only_key_changed_refl (key : string) (s : InMemoryStorage) :
  only_key_changed key s s.
Proof. by split. Qed.

Lemma only_key_changed_trans (key : string) (a b c : InMemoryStorage) :
  only_key_changed key a b -> only_key_changed key b c ->
  only_key_changed key a c.
Proof.
  intros [T1 F1] [T2 F2]. split; [lia|].
  intros key' Hne. destruct (F1 key' Hne) as [E1 E2].
  destruct (F2 key' Hne) as [E3 E4]. split; congruence.
Qed.

Section InMemoryMore.
Context (clock : nat -> Z)
        (mem : Storage InMemoryStorage := InMemory_Storage clock).
#[local] Existing Instance mem.
Implicit Types (s : InMemoryStorage) (key : string) (config : Config).

Lemma InMemory_IsBlocked_elapsed key s blockedUntil :
  blocked s !! key = Some blockedUntil ->
  blockedUntil <= clock (ticks s) ->
  IsBlocked key s
  = ((false, None),
     {| counters := counters s; blocked := blocked s; ticks := S (ticks s) |}).
Proof.
  intros Hb Hle. unfold mem.
  rewrite (InMemory_IsBlocked_some _ _ _ blockedUntil) by done.
  by destruct (Z.ltb_spec (clock (ticks s)) blockedUntil); [lia|].
Qed.

Lemma InMemory_IsBlocked_frame key s :
  (IsBlocked key s).1.2 = None /\
  counters (IsBlocked key s).2 = counters s /\
  blocked (IsBlocked key s).2 = blocked s /\
  (ticks s <= ticks (IsBlocked key s).2)%nat.
Proof.
  destruct (blocked s !! key) as [t|] eqn:E; unfold mem.
  - rewrite (InMemory_IsBlocked_some _ _ _ t) by done. cbn. by auto with lia.
  - rewrite InMemory_IsBlocked_none by done. by auto with lia.
Qed.

Lemma InMemory_Increment_frame key window s :
  (Increment key window s).1.2 = None /\
  blocked (Increment key window s).2 = blocked s /\
  ticks (Increment key window s).2 = S (ticks s) /\
  forall key', key' <> key ->
    counters (Increment key window s).2 !! key' = counters s !! key'.
Proof.
  unfold mem.
  destruct (counters s !! key) as [d|] eqn:E.
  - destruct (Z.lt_ge_cases (clock (ticks s)) (expireAt d)).
    + rewrite (InMemory_Increment_live _ _ _ _ d) by done. cbn.
      repeat split. intros. by rewrite lookup_insert_ne.
    + rewrite (InMemory_Increment_expired _ _ _ _ d) by done. cbn.
      repeat split. intros. by rewrite lookup_insert_ne.
  - rewrite InMemory_Increment_fresh by done. cbn.
    repeat split. intros. by rewrite lookup_insert_ne.
Qed.

Lemma InMemory_Block_frame key duration s :
  (Block key duration s).1 = None /\
  counters (Block key duration s).2 = counters s /\
  ticks (Block key duration s).2 = S (ticks s) /\
  forall key', key' <> key ->
    blocked (Block key duration s).2 !! key' = blocked s !! key'.
Proof.
  unfold mem. rewrite InMemory_Block_run. cbn.
  repeat split. intros. by rewrite lookup_insert_ne.
Qed.

(** X5. A decision on the in-memory store never returns an error. *)
Theorem InMemory_checkLimit_never_errors key config s :
  (checkLimit key config s).1.2 = None.
Proof.
  unfold checkLimit. run_state.
  destruct (InMemory_IsBlocked_frame key s) as (H1 & _).
  destruct (IsBlocked key s) as [[b e] s1]. cbn in H1. subst e.
  cbn beta iota. destruct b; [done|]. cbn beta iota.
  destruct (InMemory_Increment_frame key (Window config) s1) as (H2 & _).
  destruct (Increment key (Window config) s1) as [[n e] s2]. cbn in H2.
  subst e. cbn beta iota. destruct (n >? Requests config); [|done].
  destruct (InMemory_Block_frame key (BlockTime config) s2) as (H3 & _).
  destruct (Block key (BlockTime config) s2) as [e s3]. cbn in H3.
  by subst e.
Qed.

Lemma InMemory_checkLimit_frame key config s :
  only_key_changed key s (checkLimit key config s).2.
Proof.
  revert s. apply (checkLimit_preserves (only_key_changed key)).
  - apply only_key_changed_trans.
  - intros s0. destruct (InMemory_IsBlocked_frame key s0) as (_ & Hc & Hb & Ht).
    split; [done|]. intros. by rewrite Hc, Hb.
  - intros s0.
    destruct (InMemory_Increment_frame key (Window config) s0)
      as (_ & Hb & Ht & Hc).
    split; [lia|]. intros. rewrite Hb. by split; [apply Hc|].
  - intros s0.
    destruct (InMemory_Block_frame key (BlockTime config) s0)
      as (_ & Hc & Ht & Hb).
    split; [lia|]. intros. rewrite Hc. by split; [|apply Hb].
Qed.

(** X6. A decision on [key] leaves the counter and the block of every other
    key as they were, and so does any number of decisions on [key]. *)
Theorem InMemory_checkLimit_only_key_changed key config s (n : nat) :
  only_key_changed key s (checkLimit key config s).2 /\
  only_key_changed key s (calls n (checkLimit key config) s).2.
Proof.
  split; [apply InMemory_checkLimit_frame|].
  apply (calls_preserves (only_key_changed key)).
  - apply only_key_changed_refl.
  - apply only_key_changed_trans.
  - intros s0. apply InMemory_checkLimit_frame.
Qed.

(** Token checks and address checks do not share state: a token check
    changes neither the counter nor the block of any address, and an
    address check changes neither the counter nor the block of any
    token. *)
Theorem token_and_address_state_independent (rl : RateLimiter)
    (token ip token' ip' : string) s :
  (counters (CheckToken rl token s).2 !! ("ip:" ++ ip')
   = counters s !! ("ip:" ++ ip') /\
   blocked (CheckToken rl token s).2 !! ("ip:" ++ ip')
   = blocked s !! ("ip:" ++ ip')) /\
  (counters (CheckIP rl ip s).2 !! ("token:" ++ token')
   = counters s !! ("token:" ++ token') /\
   blocked (CheckIP rl ip s).2 !! ("token:" ++ token')
   = blocked s !! ("token:" ++ token')).
Proof.
  split.
  - unfold CheckToken. destruct (tokens rl !! token) as [c|]; [|done].
    destruct (InMemory_checkLimit_frame ("token:" ++ token) c s) as [_ F].
    by apply F.
  - unfold CheckIP.
    destruct (InMemory_checkLimit_frame ("ip:" ++ ip) (ipConfig rl) s)
      as [_ F].
    by apply F.
Qed.
End InMemoryMore.

(** ** Blocks and windows on the in-memory store *)

Section InMemoryWindows.
Context (clock : nat -> Z)
        (mem : Storage InMemoryStorage := InMemory_Storage clock).
#[local] Existing Instance mem.
Implicit Types (s : InMemoryStorage) (key : string) (config : Config).

(** One decision on a key without live block, given what the increment
    does. *)
Lemma InMemory_checkLimit_run key config s s1 n s2 :
  IsBlocked key s = ((false, None), s1) ->
  Increment key (Window config) s1 = ((n, None), s2) ->
  checkLimit key config s
  = if (n >? Requests config)%Z
    then ((false, None),
          {| counters := counters s2;
             blocked := <[key := clock (ticks s2) + BlockTime config]> (blocked s2);
             ticks := S (ticks s2) |})
    else ((true, None), s2).
Proof.
  intros E1 E2. unfold checkLimit. run_state. rewrite E1. cbn beta iota.
  rewrite E2. cbn beta iota. destruct (n >? Requests config); [|done].
  unfold mem. by rewrite InMemory_Block_run.
Qed.

(** X7. While a block lasts every request on the key is denied, however many
    there are and whatever the state of the counter: the counters and the
    blocks stay as they were (the block is not extended), only the clock
    is read once per request. *)
Theorem requests_during_block_all_denied key config s blockedUntil (m : nat) :
  blocked s !! key = Some blockedUntil ->
  (forall j, (ticks s <= j < ticks s + m)%nat -> clock j < blockedUntil) ->
  calls m (checkLimit key config) s
  = (repeat (false, None) m,
     {| counters := counters s; blocked := blocked s;
        ticks := ticks s + m |}).
Proof.
  revert s. induction m as [|m IH]; intros s Hb Hlt.
  - simpl. run_state. destruct s. simpl. by rewrite Nat.add_0_r.
  - change (calls (S m) (checkLimit key config) s)
      with (let '(a, s1) := checkLimit key config s in
            let '(l, s2) := calls m (checkLimit key config) s1 in
            (a :: l, s2)).
    unfold mem in *.
    rewrite (InMemory_blocked_key_untouched clock key config s blockedUntil)
      by (try done; apply Hlt; lia).
    rewrite IH; cbn; [|done|intros j Hj; apply Hlt; lia].
    do 3 f_equal. lia.
Qed.

(** X8. Once the window of a counter has elapsed, the next request on a key
    without block is allowed whatever the count was (for a limit of at
    least 1): the counter restarts at 1 with a new window. *)
Theorem quota_restored_after_window key config s d :
  blocked s !! key = None ->
  counters s !! key = Some d ->
  expireAt d <= clock (ticks s) ->
  1 <= Requests config ->
  checkLimit key config s
  = ((true, None),
     {| counters := <[key := {| count := 1;
                                expireAt := clock (ticks s) + Window config |}]>
                      (counters s);
        blocked := blocked s; ticks := S (ticks s) |}).
Proof.
  intros Hb Hd Hexp Hreq.
  rewrite (InMemory_checkLimit_run key config s s 1 _
             (InMemory_IsBlocked_none clock key s Hb)
             (InMemory_Increment_expired clock key _ s d Hd Hexp)).
  by destruct (Z.gtb_spec 1 (Requests config)); [lia|].
Qed.

(** X9. A block shorter than what is left of the window renews itself: when
    the block has elapsed but the counter is still live at or above the
    limit, the next request is counted, denied, and blocks the key again
    for [BlockTime] from that moment. *)
Theorem short_block_is_renewed key config s blockedUntil d :
  blocked s !! key = Some blockedUntil ->
  blockedUntil <= clock (ticks s) ->
  counters s !! key = Some d ->
  clock (S (ticks s)) < expireAt d ->
  Requests config <= count d ->
  0 <= count d < max_int64 ->
  exists s',
    checkLimit key config s = ((false, None), s') /\
    counters s' !! key
    = Some {| count := count d + 1; expireAt := expireAt d |} /\
    blocked s' !! key = Some (clock (S (S (ticks s))) + BlockTime config).
Proof.
  intros Hb Hel Hd Hlive Hreq Hrange.
  pose proof (InMemory_IsBlocked_elapsed clock key s blockedUntil Hb Hel) as E1.
  pose proof (InMemory_Increment_live clock key (Window config) _ d
                (Hd : counters {| counters := counters s; blocked := blocked s;
                                  ticks := S (ticks s) |} !! key = Some d)
                Hlive) as E2.
  rewrite wrap64_id in E2
    by (unfold in_int64, min_int64, max_int64 in *; lia).
  rewrite (InMemory_checkLimit_run key config s _ _ _ E1 E2).
  destruct (Z.gtb_spec (count d + 1) (Requests config)); [|lia].
  eexists. split; [done|]. cbn. by rewrite !lookup_insert_eq.
Qed.

(** X10. After both the block and the window have elapsed the next request is
    allowed (for a limit of at least 1) and counting restarts at 1; the
    elapsed block record stays in the store. *)
Theorem request_after_block_and_window_allowed key config s blockedUntil d :
  blocked s !! key = Some blockedUntil ->
  blockedUntil <= clock (ticks s) ->
  counters s !! key = Some d ->
  expireAt d <= clock (S (ticks s)) ->
  1 <= Requests config ->
  checkLimit key config s
  = ((true, None),
     {| counters := <[key := {| count := 1;
                                expireAt := clock (S (ticks s)) + Window config |}]>
                      (counters s);
        blocked := blocked s; ticks := S (S (ticks s)) |}).
Proof.
  intros Hb Hel Hd Hexp Hreq.
  pose proof (InMemory_IsBlocked_elapsed clock key s blockedUntil Hb Hel) as E1.
  pose proof (InMemory_Increment_expired clock key (Window config) _ d
                (Hd : counters {| counters := counters s; blocked := blocked s;
                                  ticks := S (ticks s) |} !! key = Some d)
                Hexp) as E2.
  rewrite (InMemory_checkLimit_run key config s _ _ _ E1 E2).
  by destruct (Z.gtb_spec 1 (Requests config)); [lia|].
Qed.

(** X11. With a request limit of 0 or less the first request on a key without
    block is denied and blocks the key, whatever the counter holds. *)
Theorem nonpositive_limit_always_denies key config s :
  Requests config <= 0 ->
  blocked s !! key = None ->
  (forall d, counters s !! key = Some d -> 0 <= count d < max_int64) ->
  exists s',
    checkLimit key config s = ((false, None), s') /\
    blocked s' !! key = Some (clock (S (ticks s)) + BlockTime config).
Proof.
  intros Hreq Hb Hrange.
  pose proof (InMemory_IsBlocked_none clock key s Hb) as E1.
  assert (exists n s2, Increment key (Window config) s = ((n, None), s2) /\
                       1 <= n /\ ticks s2 = S (ticks s)) as (n & s2 & E2 & Hn & Ht).
  { unfold mem. destruct (counters s !! key) as [d|] eqn:Hd.
    - destruct (Z.lt_ge_cases (clock (ticks s)) (expireAt d)).
      + rewrite (InMemory_Increment_live clock key _ s d Hd) by done.
        rewrite wrap64_id
          by (specialize (Hrange d eq_refl);
              unfold in_int64, min_int64, max_int64 in *; lia).
        do 2 eexists. split; [done|]. specialize (Hrange d eq_refl).
        split; [lia|done].
      + rewrite (InMemory_Increment_expired clock key _ s d Hd) by done.
        do 2 eexists. split; [done|]. split; [lia|done].
    - rewrite InMemory_Increment_fresh by done.
      do 2 eexists. split; [done|]. split; [lia|done]. }
  rewrite (InMemory_checkLimit_run key config s _ _ _ E1 E2).
  destruct (Z.gtb_spec n (Requests config)); [|lia].
  eexists. split; [done|]. cbn. by rewrite Ht, lookup_insert_eq.
Qed.

(** X12. The counter is an [int64]: incremented at [MaxInt64] in a live window
    it wraps to [MinInt64], which no limit is below, so the request is
    allowed. *)
Theorem count_wraps_at_max_int64 key config s d :
  blocked s !! key = None ->
  counters s !! key = Some d ->
  clock (ticks s) < expireAt d ->
  count d = max_int64 ->
  min_int64 <= Requests config ->
  checkLimit key config s
  = ((true, None),
     {| counters := <[key := {| count := min_int64; expireAt := expireAt d |}]>
                      (counters s);
        blocked := blocked s; ticks := S (ticks s) |}).
Proof.
  intros Hb Hd Hlive Hmax Hreq.
  pose proof (InMemory_Increment_live clock key (Window config) s d Hd Hlive)
    as E2.
  rewrite Hmax in E2.
  change (wrap64 (max_int64 + 1)) with min_int64 in E2.
  rewrite (InMemory_checkLimit_run key config s s _ _
             (InMemory_IsBlocked_none clock key s Hb) E2).
  by destruct (Z.gtb_spec min_int64 (Requests config)); [lia|].
Qed.

(** X13. A block lasts [duration] from the clock reading of [Block]: the key
    is reported blocked exactly when the next reading is before that
    instant.  In particular, on a clock that never goes back, a block of
    duration 0 or less blocks nothing. *)
Theorem InMemory_Block_then_IsBlocked key duration s :
  (IsBlocked key (Block key duration s).2).1
  = ((clock (S (ticks s)) <? clock (ticks s) + duration)%Z, None) /\
  (monotone clock -> duration <= 0 ->
   (IsBlocked key (Block key duration s).2).1 = (false, None)).
Proof.
  assert ((IsBlocked key (Block key duration s).2).1
          = ((clock (S (ticks s)) <? clock (ticks s) + duration)%Z, None)) as E.
  { unfold mem. rewrite InMemory_Block_run. cbn [snd].
    rewrite (InMemory_IsBlocked_some clock key _ (clock (ticks s) + duration))
      by (cbn; by rewrite lookup_insert_eq).
    done. }
  split; [done|]. intros Hmono Hd. rewrite E.
  pose proof (Hmono (ticks s) (S (ticks s)) ltac:(lia)).
  by destruct (Z.ltb_spec (clock (S (ticks s))) (clock (ticks s) + duration));
    [lia|].
Qed.
End InMemoryWindows.

Section InMemoryDegenerate.
Context (clock : nat -> Z)
        (mem : Storage InMemoryStorage := InMemory_Storage clock).
#[local] Existing Instance mem.

End InMemoryDegenerate.

(** ** The Redis store, further *)

Lemma blocked_key_differs (key : string) : key <> "blocked:" ++ key.
Proof.
  intros H. apply (f_equal String.length) in H.
  cbv [String.append] in H. simpl in H. lia.
Qed.

Section RedisMore.
Context (clock : nat -> Z).
Implicit Types (s : RedisServer) (key : string).

Lemma command_up {A} (zero : A) exec s :
  up s = true ->
  command clock zero exec s
  = ((exec (clock (rticks s)) (db s)).1,
     {| db := (exec (clock (rticks s)) (db s)).2; up := true;
        rticks := S (rticks s) |}).
Proof.
  intros H. unfold command. rewrite H.
  by destruct (exec (clock (rticks s)) (db s)).
Qed.

Lemma command_down {A} (zero : A) exec s :
  up s = false ->
  command clock zero exec s = ((zero, Some (New "connection refused")), s).
Proof. intros H. unfold command. by rewrite H. Qed.

Lemma command_frame {A} (zero : A) exec key s :
  (forall now d key', key' <> key -> (exec now d).2 !! key' = d !! key') ->
  up (command clock zero exec s).2 = up s /\
  forall key', key' <> key ->
    db (command clock zero exec s).2 !! key' = db s !! key'.
Proof.
  intros H. destruct (up s) eqn:Hup.
  - rewrite command_up by done. cbn. split; [done|]. intros. by apply H.
  - rewrite command_down by done. by split.
Qed.

Lemma INCR_frame key s :
  up (INCR clock key s).2 = up s /\
  forall key', key' <> key -> db (INCR clock key s).2 !! key' = db s !! key'.
Proof.
  apply command_frame. intros now d key' Hne.
  destruct (live_entry now d key) as [e|]; cbn.
  - destruct (max_int64 <=? val e)%Z; cbn; [done|]. by rewrite lookup_insert_ne.
  - by rewrite lookup_insert_ne.
Qed.

Lemma EXPIRE_frame key ttl s :
  up (EXPIRE clock key ttl s).2 = up s /\
  forall key', key' <> key ->
    db (EXPIRE clock key ttl s).2 !! key' = db s !! key'.
Proof.
  apply command_frame. intros now d key' Hne.
  destruct (live_entry now d key) as [e|]; cbn; [|done].
  destruct (ttl <=? 0)%Z; cbn.
  - by rewrite lookup_delete_ne.
  - by rewrite lookup_insert_ne.
Qed.

Lemma SET_frame key value expiration s :
  up (SET clock key value expiration s).2 = up s /\
  forall key', key' <> key ->
    db (SET clock key value expiration s).2 !! key' = db s !! key'.
Proof.
  apply command_frame. intros now d key' Hne. cbn.
  by rewrite lookup_insert_ne.
Qed.

Lemma EXISTS_frame key s :
  up (EXISTS clock key s).2 = up s /\ db (EXISTS clock key s).2 = db s.
Proof.
  unfold EXISTS. destruct (up s) eqn:Hup.
  - rewrite command_up by done. cbn. split; [done|].
    by destruct (live_entry (clock (rticks s)) (db s) key).
  - rewrite command_down by done. by split.
Qed.

Lemma Redis_Increment_frame key window s :
  up (Redis_Increment clock key window s).2 = up s /\
  forall key', key' <> key ->
    db (Redis_Increment clock key window s).2 !! key' = db s !! key'.
Proof.
  unfold Redis_Increment. run_state.
  destruct (INCR_frame key s) as [U1 F1].
  destruct (INCR clock key s) as [[n e1] s1].
  destruct (EXPIRE_frame key window s1) as [U2 F2].
  destruct (EXPIRE clock key window s1) as [[b e2] s2]. cbn in *.
  assert (up s2 = up s /\
          forall key', key' <> key -> db s2 !! key' = db s !! key') as H.
  { split; [congruence|]. intros key' Hne. rewrite F2 by done. by apply F1. }
  by destruct (first_err e1 e2).
Qed.

Lemma Redis_Block_frame key duration s :
  up (Redis_Block clock key duration s).2 = up s /\
  forall key', key' <> "blocked:" ++ key ->
    db (Redis_Block clock key duration s).2 !! key' = db s !! key'.
Proof.
  unfold Redis_Block. run_state.
  destruct (SET_frame ("blocked:" ++ key) 1 duration s) as [U F].
  destruct (SET clock ("blocked:" ++ key) 1 duration s) as [[u e] s1].
  cbn in *. by destruct e.
Qed.

Lemma Redis_IsBlocked_frame key s :
  up (Redis_IsBlocked clock key s).2 = up s /\
  db (Redis_IsBlocked clock key s).2 = db s.
Proof.
  unfold Redis_IsBlocked. run_state.
  destruct (EXISTS_frame ("blocked:" ++ key) s) as [U F].
  destruct (EXISTS clock ("blocked:" ++ key) s) as [[n e] s1].
  cbn in *. by destruct e.
Qed.

(** X15. Each operation of the Redis store writes one key of the server only:
    [Increment] the rate key itself, [Block] the rate key prefixed with
    ["blocked:"], and [IsBlocked] none. *)
Theorem Redis_operations_touch_only_their_key key window duration s :
  (forall key', key' <> key ->
     db (Redis_Increment clock key window s).2 !! key' = db s !! key') /\
  (forall key', key' <> "blocked:" ++ key ->
     db (Redis_Block clock key duration s).2 !! key' = db s !! key') /\
  db (Redis_IsBlocked clock key s).2 = db s.
Proof.
  split; [apply Redis_Increment_frame|].
  split; [apply Redis_Block_frame|apply Redis_IsBlocked_frame].
Qed.

(** Counting an address or a token never creates, changes or removes a
    block record, and blocking one never changes a counter of an address
    or a token. *)
Theorem Redis_counters_and_blocks_disjoint (ip token key' : string)
    window duration s :
  db (Redis_Increment clock ("ip:" ++ ip) window s).2 !! ("blocked:" ++ key')
  = db s !! ("blocked:" ++ key') /\
  db (Redis_Increment clock ("token:" ++ token) window s).2
    !! ("blocked:" ++ key')
  = db s !! ("blocked:" ++ key') /\
  db (Redis_Block clock key' duration s).2 !! ("ip:" ++ ip)
  = db s !! ("ip:" ++ ip) /\
  db (Redis_Block clock key' duration s).2 !! ("token:" ++ token)
  = db s !! ("token:" ++ token).
Proof.
  repeat split.
  - by apply Redis_Increment_frame.
  - by apply Redis_Increment_frame.
  - by apply Redis_Block_frame.
  - by apply Redis_Block_frame.
Qed.
End RedisMore.

Section RedisEdges.
Context (clock : nat -> Z).
Implicit Types (s : RedisServer) (key : string) (config : Config).

Lemma INCR_absent key s :
  up s = true ->
  db s !! key = None ->
  INCR clock key s
  = ((1, None),
     {| db := <[key := {| val := 1; expiry := None |}]> (db s);
        up := true; rticks := S (rticks s) |}).
Proof.
  intros Hup Hk. unfold INCR. rewrite command_up by done.
  unfold live_entry. by rewrite Hk.
Qed.

Lemma INCR_live key s e :
  up s = true ->
  db s !! key = Some e ->
  live (clock (rticks s)) e = true ->
  val e < max_int64 ->
  INCR clock key s
  = ((val e + 1, None),
     {| db := <[key := {| val := val e + 1; expiry := expiry e |}]> (db s);
        up := true; rticks := S (rticks s) |}).
Proof.
  intros Hup Hk Hlive Hmax. unfold INCR. rewrite command_up by done.
  unfold live_entry. rewrite Hk, Hlive.
  by destruct (Z.leb_spec max_int64 (val e)); [lia|].
Qed.

Lemma EXPIRE_live key ttl s e :
  up s = true ->
  db s !! key = Some e ->
  live (clock (rticks s)) e = true ->
  0 < ttl ->
  EXPIRE clock key ttl s
  = ((true, None),
     {| db := <[key := {| val := val e;
                          expiry := Some (clock (rticks s) + ttl) |}]> (db s);
        up := true; rticks := S (rticks s) |}).
Proof.
  intros Hup Hk Hlive Httl. unfold EXPIRE. rewrite command_up by done.
  unfold live_entry. rewrite Hk, Hlive.
  by destruct (Z.leb_spec ttl 0); [lia|].
Qed.

Lemma Redis_IsBlocked_absent key s :
  up s = true ->
  db s !! ("blocked:" ++ key) = None ->
  Redis_IsBlocked clock key s
  = ((false, None), {| db := db s; up := true; rticks := S (rticks s) |}).
Proof.
  intros Hup Hb. unfold Redis_IsBlocked, EXISTS. run_state.
  rewrite command_up by done. unfold live_entry. by rewrite Hb.
Qed.

Lemma Redis_Increment_nonpositive_window key window s :
  up s = true ->
  window <= 0 ->
  db s !! key = None ->
  Redis_Increment clock key window s
  = ((1, None),
     {| db := delete key (<[key := {| val := 1; expiry := None |}]> (db s));
        up := true; rticks := S (S (rticks s)) |}).
Proof.
  intros Hup Hw Hk. unfold Redis_Increment, INCR, EXPIRE. run_state.
  rewrite command_up by done. unfold live_entry. rewrite Hk.
  cbn [fst snd]. rewrite command_up by done. cbn [db rticks fst snd].
  rewrite lookup_insert_eq. cbn.
  by destruct (Z.leb_spec window 0); [|lia].
Qed.

(** X16. On a server whose connection is down every operation of the store
    fails with a wrapped error, returns the zero value with it, and
    changes nothing; a decision then fails at its first operation. *)
Theorem Redis_down_every_operation_fails key config window duration s :
  up s = false ->
  Redis_Increment clock key window s
  = ((0, Some (Errorf "falha ao incrementar contador"
                 (New "connection refused"))), s) /\
  Redis_IsBlocked clock key s
  = ((false, Some (Errorf "falha ao verificar se a chave está bloqueada"
                     (New "connection refused"))), s) /\
  Redis_Block clock key duration s
  = (Some (Errorf "falha ao bloquear chave" (New "connection refused")), s) /\
  checkLimit (Storage0 := Redis_Storage clock) key config s
  = ((false,
      Some (Errorf "falha ao verificar se está bloqueado"
              (Errorf "falha ao verificar se a chave está bloqueada"
                 (New "connection refused")))), s).
Proof.
  intros Hup.
  assert (Redis_IsBlocked clock key s
          = ((false, Some (Errorf "falha ao verificar se a chave está bloqueada"
                             (New "connection refused"))), s)) as E.
  { unfold Redis_IsBlocked, EXISTS. run_state. by rewrite command_down. }
  repeat split.
  - unfold Redis_Increment, INCR, EXPIRE. run_state.
    by rewrite !command_down.
  - done.
  - unfold Redis_Block, SET. run_state. by rewrite command_down.
  - unfold checkLimit. run_state.
    change (IsBlocked key s) with (Redis_IsBlocked clock key s).
    by rewrite E.
Qed.

(** X17. A counter that holds [MaxInt64] is not incremented: the server
    refuses, and [Increment] returns 0 with a wrapped error. *)
Theorem Redis_Increment_overflow_is_an_error key window s e :
  up s = true ->
  db s !! key = Some e ->
  live (clock (rticks s)) e = true ->
  max_int64 <= val e ->
  (Redis_Increment clock key window s).1
  = (0, Some (Errorf "falha ao incrementar contador"
                (New "ERR increment or decrement would overflow"))).
Proof.
  intros Hup He Hlive Hmax. unfold Redis_Increment, INCR, EXPIRE. run_state.
  rewrite command_up by done. unfold live_entry. rewrite He, Hlive.
  destruct (Z.leb_spec max_int64 (val e)); [|lia]. cbn [fst snd].
  rewrite command_up by done. cbn [db rticks fst snd]. rewrite He.
  destruct (live (clock (S (rticks s))) e); [|done].
  by destruct (window <=? 0)%Z.
Qed.

(** X18. A block of duration 0 is written without expiry: the key is then
    reported blocked at every later instant, for as long as the record is
    in the server. *)
Theorem Redis_zero_block_never_expires key s :
  up s = true ->
  (Redis_Block clock key 0 s).1 = None /\
  db (Redis_Block clock key 0 s).2 !! ("blocked:" ++ key)
  = Some {| val := 1; expiry := None |} /\
  forall (clock' : nat -> Z) s',
    up s' = true ->
    db s' !! ("blocked:" ++ key) = Some {| val := 1; expiry := None |} ->
    (Redis_IsBlocked clock' key s').1 = (true, None).
Proof.
  intros Hup. unfold Redis_Block, SET. run_state.
  rewrite command_up by done. cbn. split; [done|].
  split; [by rewrite lookup_insert_eq|].
  intros clock' s' Hup' Hb. unfold Redis_IsBlocked, EXISTS. run_state.
  rewrite command_up by done. unfold live_entry. by rewrite Hb.
Qed.

End RedisEdges.

(** ** Loading the token configurations *)

Section LoadFacts.
Context (Getenv : string -> string) (Environ : list string)
        (ParseInt ParseDuration : string -> Z * option error).

Lemma loadTokenConfigs_from_invariant (envs : list string)
    (Tokens0 : gmap string Config) :
  (forall t c, Tokens0 !! t = Some c ->
     loaded_from_env Getenv ParseInt ParseDuration t c) ->
  forall t c,
    (loadTokenConfigs_from Getenv ParseInt ParseDuration envs Tokens0).1 !! t
    = Some c ->
    loaded_from_env Getenv ParseInt ParseDuration t c.
Proof.
  revert Tokens0. induction envs as [|env rest IH]; intros Tokens0 H0; [done|].
  cbn [loadTokenConfigs_from].
  destruct (negb (length (Split "="%char env) =? 2)%nat); [by apply IH|].
  destruct (negb (HasPrefix _ _) || negb (HasSuffix _ _)); [by apply IH|].
  set (tokenPart := TrimSuffix _ _).
  destruct (String.eqb tokenPart "") eqn:Hname; [by apply IH|].
  apply String.eqb_neq in Hname.
  destruct (Z.eqb_spec
              (getEnvAsInt64 Getenv ParseInt
                 ("RATE_LIMIT_TOKEN_" ++ tokenPart ++ "_REQUESTS") 0) 0)
    as [|Hreq]; [by apply IH|].
  destruct (ParseDuration
              (getEnv Getenv ("RATE_LIMIT_TOKEN_" ++ tokenPart ++ "_WINDOW") "1s"))
    as [window [e|]] eqn:Hwin; [done|].
  destruct (ParseDuration
              (getEnv Getenv ("RATE_LIMIT_TOKEN_" ++ tokenPart ++ "_BLOCK_TIME")
                 "5m"))
    as [blockTime [e|]] eqn:Hblk; [done|].
  apply IH. intros t c Hl.
  destruct (decide (tokenPart = t)) as [<-|Hne].
  - rewrite lookup_insert_eq in Hl. injection Hl as <-.
    unfold loaded_from_env, token_config_of_env, token_window_var,
      token_block_var.
    rewrite Hwin, Hblk. by repeat split.
  - rewrite lookup_insert_ne in Hl by done. by apply H0.
Qed.

(** X21. Every token that [loadTokenConfigs] puts into an empty [c.Tokens] has
    a non-empty name, a request limit other than 0, and exactly the
    configuration its three variables describe: the limit read from
    [RATE_LIMIT_TOKEN_<t>_REQUESTS], the window from
    [RATE_LIMIT_TOKEN_<t>_WINDOW] or ["1s"], the block time from
    [RATE_LIMIT_TOKEN_<t>_BLOCK_TIME] or ["5m"], both durations parsed
    without error. *)
Theorem loadTokenConfigs_entries (t : string) (c : Config) :
  (loadTokenConfigs Getenv Environ ParseInt ParseDuration ∅).1 !! t = Some c ->
  loaded_from_env Getenv ParseInt ParseDuration t c.
Proof.
  apply loadTokenConfigs_from_invariant. intros t' c'.
  by rewrite lookup_empty.
Qed.

(** X22. A token whose [RATE_LIMIT_TOKEN_<t>_REQUESTS] is unset, empty,
    unreadable or 0 is not registered by [loadTokenConfigs]. *)
Theorem loadTokenConfigs_skips_zero_limit (t : string) :
  getEnvAsInt64 Getenv ParseInt ("RATE_LIMIT_TOKEN_" ++ t ++ "_REQUESTS") 0 = 0 ->
  (loadTokenConfigs Getenv Environ ParseInt ParseDuration ∅).1 !! t = None.
Proof.
  intros Hz.
  destruct ((loadTokenConfigs Getenv Environ ParseInt ParseDuration ∅).1 !! t)
    as [c|] eqn:E; [|done].
  apply (loadTokenConfigs_from_invariant Environ ∅) in E.
  - destruct E as (_ & -> & Hreq & _). by cbn in Hreq.
  - intros t' c'. by rewrite lookup_empty.
Qed.
End LoadFacts.

Section LoadResult.
Context (Getenv : string -> string) (Environ : list string)
        (Atoi ParseInt ParseDuration : string -> Z * option error).

(** X23. [Load] returns a configuration or an error, never both and never
    neither; a configuration it returns has the address limit read from
    [RATE_LIMIT_IP_REQUESTS] (10 when unset or unreadable) and only tokens
    whose configuration is what their variables describe. *)
Theorem Load_config_or_error :
  let result := Load Getenv Environ Atoi ParseInt ParseDuration in
  (result.1 = None <-> result.2 <> None) /\
  forall cfg, result.1 = Some cfg ->
    Requests (IP cfg) = getEnvAsInt64 Getenv ParseInt "RATE_LIMIT_IP_REQUESTS" 10 /\
    forall t c, Tokens cfg !! t = Some c ->
      loaded_from_env Getenv ParseInt ParseDuration t c.
Proof.
  unfold Load.
  destruct (ParseDuration (getEnv Getenv "RATE_LIMIT_IP_WINDOW" "1s"))
    as [w [e|]]; cbn; [by split|].
  destruct (ParseDuration (getEnv Getenv "RATE_LIMIT_IP_BLOCK_TIME" "5m"))
    as [b [e|]]; cbn; [by split|].
  assert (forall t c,
            (loadTokenConfigs Getenv Environ ParseInt ParseDuration ∅).1 !! t
            = Some c ->
            loaded_from_env Getenv ParseInt ParseDuration t c) as Hinv.
  { apply loadTokenConfigs_from_invariant. intros t c. by rewrite lookup_empty. }
  destruct (loadTokenConfigs Getenv Environ ParseInt ParseDuration ∅)
    as [toks [e|]]; cbn in *; [by split|].
  split; [by split|]. intros cfg [= <-]. cbn. by split.
Qed.
End LoadResult.

(** ** Further runs on concrete inputs *)

Lemma AddTokenConfig_other_checks_unchanged_witness :
  CheckIP (Storage0 := InMemory_Storage ms_clock)
    (AddTokenConfig "abc123" test_config (NewRateLimiter low_ip_config))
    "192.168.1.1" NewInMemoryStorage
  = CheckIP (Storage0 := InMemory_Storage ms_clock)
      (NewRateLimiter low_ip_config) "192.168.1.1" NewInMemoryStorage /\
  CheckToken (Storage0 := InMemory_Storage ms_clock)
    (AddTokenConfig "abc123" test_config (NewRateLimiter low_ip_config))
    "xyz789" NewInMemoryStorage
  = CheckToken (Storage0 := InMemory_Storage ms_clock)
      (NewRateLimiter low_ip_config) "xyz789" NewInMemoryStorage.
Proof.
  apply (AddTokenConfig_other_checks_unchanged
           (Storage0 := InMemory_Storage ms_clock)
           "abc123" "xyz789" "192.168.1.1" test_config
           (NewRateLimiter low_ip_config) NewInMemoryStorage).
  discriminate.
Defined.

Lemma requests_during_block_all_denied_witness :
  calls 5 (checkLimit (Storage0 := InMemory_Storage ms_clock)
             test_key test_config) blocked_store
  = (repeat (false, None) 5,
     {| counters := counters blocked_store; blocked := blocked blocked_store;
        ticks := ticks blocked_store + 5 |}).
Proof.
  apply (requests_during_block_all_denied ms_clock test_key test_config
           blocked_store Minute 5).
  - reflexivity.
  - intros j Hj. unfold ms_clock, Minute, Second. simpl in Hj. lia.
Defined.

Lemma quota_restored_after_window_witness :
  checkLimit (Storage0 := InMemory_Storage ms_clock)
    test_key test_config expired_store
  = ((true, None),
     {| counters := <[test_key := {| count := 1;
                                     expireAt := ms_clock (ticks expired_store)
                                                 + Window test_config |}]>
                      (counters expired_store);
        blocked := blocked expired_store;
        ticks := S (ticks expired_store) |}).
Proof.
  apply (quota_restored_after_window ms_clock test_key test_config
           expired_store {| count := 4; expireAt := 0 |}).
  - reflexivity.
  - reflexivity.
  - vm_compute. discriminate.
  - vm_compute. discriminate.
Defined.

Lemma short_block_is_renewed_witness :
  exists s',
    checkLimit (Storage0 := InMemory_Storage ms_clock)
      test_key test_config short_block_store = ((false, None), s') /\
    counters s' !! test_key = Some {| count := 4 + 1; expireAt := Second |} /\
    blocked s' !! test_key
    = Some (ms_clock (S (S (ticks short_block_store))) + BlockTime test_config).
Proof.
  apply (short_block_is_renewed ms_clock test_key test_config
           short_block_store 0 {| count := 4; expireAt := Second |}).
  - reflexivity.
  - vm_compute. discriminate.
  - reflexivity.
  - vm_compute. reflexivity.
  - vm_compute. discriminate.
  - vm_compute. split; [discriminate|reflexivity].
Defined.

Lemma request_after_block_and_window_allowed_witness :
  checkLimit (Storage0 := InMemory_Storage ms_clock)
    test_key test_config elapsed_store
  = ((true, None),
     {| counters := <[test_key := {| count := 1;
                                     expireAt := ms_clock (S (ticks elapsed_store))
                                                 + Window test_config |}]>
                      (counters elapsed_store);
        blocked := blocked elapsed_store;
        ticks := S (S (ticks elapsed_store)) |}).
Proof.
  apply (request_after_block_and_window_allowed ms_clock test_key test_config
           elapsed_store 0 {| count := 4; expireAt := 0 |}).
  - reflexivity.
  - vm_compute. discriminate.
  - reflexivity.
  - vm_compute. discriminate.
  - vm_compute. discriminate.
Defined.

Lemma nonpositive_limit_always_denies_witness :
  exists s',
    checkLimit (Storage0 := InMemory_Storage ms_clock)
      test_key zero_config NewInMemoryStorage = ((false, None), s') /\
    blocked s' !! test_key
    = Some (ms_clock (S (ticks NewInMemoryStorage)) + BlockTime zero_config).
Proof.
  apply (nonpositive_limit_always_denies ms_clock test_key zero_config
           NewInMemoryStorage).
  - vm_compute. discriminate.
  - reflexivity.
  - intros d Hd. vm_compute in Hd. discriminate.
Defined.

Lemma count_wraps_at_max_int64_witness :
  checkLimit (Storage0 := InMemory_Storage ms_clock)
    test_key test_config saturated_store
  = ((true, None),
     {| counters := <[test_key := {| count := min_int64; expireAt := Second |}]>
                      (counters saturated_store);
        blocked := blocked saturated_store;
        ticks := S (ticks saturated_store) |}).
Proof.
  apply (count_wraps_at_max_int64 ms_clock test_key test_config
           saturated_store {| count := max_int64; expireAt := Second |}).
  - reflexivity.
  - reflexivity.
  - vm_compute. reflexivity.
  - reflexivity.
  - vm_compute. discriminate.
Defined.


Lemma Redis_down_every_operation_fails_witness :
  checkLimit (Storage0 := Redis_Storage ms_clock)
    test_key test_config down_server
  = ((false,
      Some (Errorf "falha ao verificar se está bloqueado"
              (Errorf "falha ao verificar se a chave está bloqueada"
                 (New "connection refused")))), down_server).
Proof.
  apply (Redis_down_every_operation_fails ms_clock test_key test_config
           Second Minute down_server).
  reflexivity.
Defined.

Lemma Redis_Increment_overflow_is_an_error_witness :
  (Redis_Increment ms_clock test_key Second saturated_server).1
  = (0, Some (Errorf "falha ao incrementar contador"
                (New "ERR increment or decrement would overflow"))).
Proof.
  apply (Redis_Increment_overflow_is_an_error ms_clock test_key Second
           saturated_server {| val := max_int64; expiry := None |}).
  - reflexivity.
  - reflexivity.
  - reflexivity.
  - vm_compute. discriminate.
Defined.

Lemma Redis_zero_block_never_expires_witness :
  db (Redis_Block ms_clock test_key 0 empty_server).2 !! ("blocked:" ++ test_key)
  = Some {| val := 1; expiry := None |}.
Proof.
  apply (Redis_zero_block_never_expires ms_clock test_key empty_server).
  reflexivity.
Defined.


Lemma loadTokenConfigs_entries_witness :
  loaded_from_env test_Getenv test_ParseInt test_ParseDuration "abc123"
    {| Requests := 100; Window := Second; BlockTime := 5 * Minute |}.
Proof.
  apply (loadTokenConfigs_entries test_Getenv test_Environ test_ParseInt
           test_ParseDuration "abc123").
  vm_compute. reflexivity.
Defined.

Lemma loadTokenConfigs_skips_zero_limit_witness :
  (loadTokenConfigs test_Getenv test_Environ test_ParseInt test_ParseDuration ∅).1
    !! "xyz789" = None.
Proof.
  apply (loadTokenConfigs_skips_zero_limit test_Getenv test_Environ
           test_ParseInt test_ParseDuration "xyz789").
  vm_compute. reflexivity.
Defined.

(** ** The sliding window of the Redis store *)

Section RedisSliding.
Context (clock : nat -> Z) (key : string) (config : Config) (t0 n : nat).
Hypothesis close : successive_within clock (Window config) t0 n.
Hypothesis limit_countable : Requests config < max_int64.

Lemma redis_counting_Increment k s :
  up s = true ->
  rticks s = S (t0 + 3 * k) ->
  db s !! key
  = match k with
    | O => None
    | S _ => Some {| val := Z.of_nat k;
                     expiry := Some (clock (t0 + 3 * k - 1)%nat
                                     + Window config) |}
    end ->
  Z.of_nat k <= Requests config ->
  (t0 + 3 * k + 2 < t0 + n)%nat ->
  Redis_Increment clock key (Window config) s
  = ((Z.of_nat (S k), None),
     {| db := <[key := {| val := Z.of_nat (S k);
                          expiry := Some (clock (t0 + 3 * S k - 1)%nat
                                          + Window config) |}]> (db s);
        up := true; rticks := (t0 + 3 * S k)%nat |}).
Proof.
  intros Hup Ht Hk Hreq Hn.
  assert (0 < Window config) as Hw.
  { pose proof (close (t0 + 3 * k)%nat (t0 + 3 * k)%nat ltac:(lia) ltac:(lia)
                  ltac:(lia)). lia. }
  replace (t0 + 3 * S k - 1)%nat with (S (rticks s)) by lia.
  replace (t0 + 3 * S k)%nat with (S (S (rticks s))) by lia.
  unfold Redis_Increment. run_state.
  destruct k as [|k'].
  - rewrite INCR_absent by done. cbn beta iota.
    rewrite (EXPIRE_live clock key (Window config) _
               {| val := 1; expiry := None |});
      [|done|by cbn; rewrite lookup_insert_eq|done|done].
    cbn. by rewrite insert_insert_eq.
  - pose proof (close (rticks s) (t0 + 3 * S k' - 1)%nat
                  ltac:(lia) ltac:(lia) ltac:(lia)) as C1.
    pose proof (close (S (rticks s)) (t0 + 3 * S k' - 1)%nat
                  ltac:(lia) ltac:(lia) ltac:(lia)) as C2.
    rewrite (INCR_live clock key s _ Hup Hk);
      [|by apply Z.ltb_lt|cbn; lia].
    cbn beta iota.
    rewrite (EXPIRE_live clock key (Window config) _
               {| val := Z.of_nat (S k') + 1;
                  expiry := Some (clock (t0 + 3 * S k' - 1)%nat
                                  + Window config) |});
      [|done|by cbn; rewrite lookup_insert_eq|by apply Z.ltb_lt|done].
    cbn. rewrite insert_insert_eq. do 5 f_equal; lia.
Qed.

Lemma redis_counting_checkLimit k s :
  redis_counting clock key (Window config) t0 k s ->
  Z.of_nat k <= Requests config ->
  (t0 + 3 * k + 2 < t0 + n)%nat ->
  exists s',
    checkLimit (Storage0 := Redis_Storage clock) key config s
    = ((bool_decide (Z.of_nat (S k) <= Requests config), None), s') /\
    (Z.of_nat (S k) <= Requests config ->
     redis_counting clock key (Window config) t0 (S k) s').
Proof.
  intros (Hup & Ht & Hb & Hk) Hreq Hn.
  unfold checkLimit. run_state.
  change (IsBlocked key s) with (Redis_IsBlocked clock key s).
  rewrite Redis_IsBlocked_absent by done. cbn beta iota.
  match goal with
  | |- context [Increment key ?w ?s1] =>
    change (Increment key w s1) with (Redis_Increment clock key w s1)
  end.
  rewrite (redis_counting_Increment k) by (cbn; (done || lia)).
  cbn beta iota.
  destruct (Z.gtb_spec (Z.of_nat (S k)) (Requests config)) as [Hgt|Hle].
  - rewrite bool_decide_eq_false_2 by lia.
    match goal with
    | |- context [Block key ?d ?s2] =>
      change (Block key d s2) with (Redis_Block clock key d s2);
      destruct (Redis_Block clock key d s2) as [[e|] s3] eqn:E
    end.
    + revert E. unfold Redis_Block, SET. run_state.
      rewrite command_up by done. done.
    + eexists. split; [done|]. lia.
  - rewrite bool_decide_eq_true_2 by lia.
    eexists. split; [done|]. intros _.
    split; [done|]. split; [done|]. cbn [db].
    split; [|by rewrite lookup_insert_eq].
    rewrite lookup_insert_ne; [done|]. apply blocked_key_differs.
Qed.
Lemma redis_calls_within_limit m k s :
  redis_counting clock key (Window config) t0 k s ->
  Z.of_nat (k + m) <= Requests config ->
  (3 * (k + m) <= n)%nat ->
  exists s',
    calls m (checkLimit (Storage0 := Redis_Storage clock) key config) s
    = (repeat (true, None) m, s') /\
    redis_counting clock key (Window config) t0 (k + m) s'.
Proof.
  revert k s. induction m as [|m IH]; intros k s Hc Hk Hn.
  - exists s. by rewrite Nat.add_0_r.
  - destruct (redis_counting_checkLimit k s Hc) as (s1 & E1 & Hc1);
      [lia|lia|].
    rewrite bool_decide_eq_true_2 in E1 by lia.
    destruct (IH (S k) s1) as (s2 & E2 & Hc2); [apply Hc1; lia|lia|lia|].
    exists s2. split; [|by rewrite Nat.add_succ_r].
    change (calls (S m) (checkLimit (Storage0 := Redis_Storage clock)
                           key config) s)
      with (let '(a, s1) := checkLimit (Storage0 := Redis_Storage clock)
                              key config s in
            let '(l, s2) := calls m (checkLimit (Storage0 := Redis_Storage clock)
                                       key config) s1 in
            (a :: l, s2)).
    by rewrite E1, E2.
Qed.
End RedisSliding.



(** The same four requests, 900ms apart with a limit of 3 per second, on
    the two stores: the in-memory store starts a new window at the third
    request and allows all four; the Redis store denies the fourth. *)
Example requests_900ms_apart :
  (calls 4 (checkLimit (Storage0 := InMemory_Storage (linear_clock 900000000))
              test_key test_config) NewInMemoryStorage).1
  = [(true, None); (true, None); (true, None); (true, None)] /\
  (calls 4 (checkLimit (Storage0 := Redis_Storage (linear_clock 300000000))
              test_key test_config) empty_server).1
  = [(true, None); (true, None); (true, None); (false, None)].
Proof. vm_compute. by split. Qed.

(** ** The middleware *)

Lemma Split_nonempty (sep : Ascii.ascii) (s : string) :
  (0 <? length (Split sep s))%nat = true.
Proof.
  destruct s as [|c s]; [done|]. simpl.
  destruct (Ascii.eqb c sep); [done|]. by destruct (Split sep s).
Qed.

Lemma Split_first_prefix (sep : Ascii.ascii) (s : string) :
  String.prefix (nth 0 (Split sep s) "") s = true.
Proof.
  induction s as [|c s IH]; [done|]. simpl.
  destruct (Ascii.eqb c sep); [done|].
  destruct (Split sep s) as [|h t]; simpl in *.
  - destruct (ascii_dec c c); [|done]. by destruct s.
  - by destruct (ascii_dec c c).
Qed.

Lemma calls_map {St A B} (f : A -> B) (m : State St A) (h : State St B) :
  (forall s, h s = ((f (m s).1), (m s).2)) ->
  forall n s, calls n h s = (map f (calls n m s).1, (calls n m s).2).
Proof.
  intros Hh. induction n as [|n IH]; intros s; [done|].
  change (calls (S n) h s)
    with (let '(a, s1) := h s in
          let '(l, s2) := calls n h s1 in (a :: l, s2)).
  change (calls (S n) m s)
    with (let '(a, s1) := m s in
          let '(l, s2) := calls n m s1 in (a :: l, s2)).
  rewrite Hh. destruct (m s) as [a s1]. cbn [fst snd]. rewrite IH.
  by destruct (calls n m s1).
Qed.

Section MiddlewareFacts.
Context (TrimSpace : string -> string)
        (SplitHostPort : string -> (string * string) * option error).
Context {St : Type} `{!Storage St}.
Implicit Types (m : RateLimiterMiddleware) (r : Request) (s : St).

Lemma Handler_run m r s :
  Handler TrimSpace SplitHostPort m r s
  = (response_of (check_of TrimSpace SplitHostPort m r s).1,
     (check_of TrimSpace SplitHostPort m r s).2).
Proof.
  unfold Handler, check_of, response_of. run_state.
  destruct (negb (String.eqb (Header_Get r "API_KEY") "")).
  - by destruct (CheckToken _ _ s) as [[allowed [e|]] s'].
  - by destruct (CheckIP _ _ s) as [[allowed [e|]] s'].
Qed.

(** X24. A request with a non-empty [API_KEY] for which no configuration is
    registered is handed to the next handler without any store operation:
    the address is not checked, whatever its state. *)
Theorem Handler_unknown_token_passes m r s :
  Header_Get r "API_KEY" <> "" ->
  tokens (rateLimiter m) !! Header_Get r "API_KEY" = None ->
  Handler TrimSpace SplitHostPort m r s = (Next, s).
Proof.
  intros Hkey Hreg. rewrite Handler_run. unfold check_of.
  apply String.eqb_neq in Hkey. rewrite Hkey. cbn [negb].
  by rewrite CheckToken_unknown.
Qed.

(** X25. The handler fails closed: the request reaches the next handler only
    when its check returned allowed with a nil error; an error of the
    check gives 500 and a denial 429; and the handler does to the store
    what the check does. *)
Theorem Handler_response m r s :
  let check := check_of TrimSpace SplitHostPort m r s in
  (Handler TrimSpace SplitHostPort m r s).2 = check.2 /\
  ((Handler TrimSpace SplitHostPort m r s).1 = Next
   <-> check.1 = (true, None)) /\
  ((Handler TrimSpace SplitHostPort m r s).1 = TooManyRequests
   <-> check.1 = (false, None)) /\
  ((Handler TrimSpace SplitHostPort m r s).1 = InternalServerError
   <-> check.1.2 <> None).
Proof.
  cbn zeta. rewrite Handler_run. cbn [fst snd]. unfold response_of, respond.
  destruct (check_of TrimSpace SplitHostPort m r s) as [[[|] [e|]] s'];
    cbn; repeat split; try done; intros [=].
Qed.

(** X26. A non-empty [X-Forwarded-For] decides the client address alone: it is
    the first comma-separated field of the header, trimmed, whatever
    [X-Real-IP] and [RemoteAddr] are (the test [len(ips) > 0] never
    fails). *)
Theorem getClientIP_forwarded_for_wins r :
  Header_Get r "X-Forwarded-For" <> "" ->
  getClientIP TrimSpace SplitHostPort r
  = TrimSpace (nth 0 (Split ","%char (Header_Get r "X-Forwarded-For")) "") /\
  String.prefix (nth 0 (Split ","%char (Header_Get r "X-Forwarded-For")) "")
    (Header_Get r "X-Forwarded-For") = true /\
  forall r', Header_Get r' "X-Forwarded-For" = Header_Get r "X-Forwarded-For" ->
    getClientIP TrimSpace SplitHostPort r'
    = getClientIP TrimSpace SplitHostPort r.
Proof.
  intros Hx. apply String.eqb_neq in Hx.
  assert (forall r0, Header_Get r0 "X-Forwarded-For"
                     = Header_Get r "X-Forwarded-For" ->
            getClientIP TrimSpace SplitHostPort r0
            = TrimSpace (nth 0 (Split ","%char (Header_Get r "X-Forwarded-For"))
                           "")) as H.
  { intros r0 E. unfold getClientIP. rewrite E, Hx. cbn [negb].
    by rewrite Split_nonempty. }
  split; [by apply H|]. split; [apply Split_first_prefix|].
  intros r' E. by rewrite (H r' E), (H r eq_refl).
Qed.
End MiddlewareFacts.

Section MiddlewareInMemory.
Context (TrimSpace : string -> string)
        (SplitHostPort : string -> (string * string) * option error).
Context (clock : nat -> Z)
        (mem : Storage InMemoryStorage := InMemory_Storage clock).
#[local] Existing Instance mem.
Implicit Types (m : RateLimiterMiddleware) (r : Request)
  (s : InMemoryStorage).

(** X27. A request changes the state of its own rate key only: the counter and
    the block of the token when it carries an [API_KEY], of the address
    otherwise; every other counter and block is left as it was. *)
Theorem Handler_only_rate_key_changed m r s :
  only_key_changed (rate_key TrimSpace SplitHostPort r) s
    (Handler TrimSpace SplitHostPort m r s).2.
Proof.
  rewrite Handler_run. cbn [snd]. unfold check_of, rate_key.
  destruct (negb (String.eqb (Header_Get r "API_KEY") "")).
  - unfold CheckToken.
    destruct (tokens (rateLimiter m) !! Header_Get r "API_KEY");
      [apply InMemory_checkLimit_frame|apply only_key_changed_refl].
  - apply InMemory_checkLimit_frame.
Qed.

(** X28. Requests without [API_KEY] from one address are limited by the
    address configuration: on a key without counter and without block,
    [N + 1] requests within one window, [N] being the address limit, are
    handed on [N] times and the last is answered 429. *)
Theorem Handler_limits_address m r s (N : nat) :
  Header_Get r "API_KEY" = "" ->
  Requests (ipConfig (rateLimiter m)) = Z.of_nat N ->
  Requests (ipConfig (rateLimiter m)) < max_int64 ->
  within_one_window clock (ipConfig (rateLimiter m)) (ticks s) N ->
  counters s !! ("ip:" ++ getClientIP TrimSpace SplitHostPort r) = None ->
  blocked s !! ("ip:" ++ getClientIP TrimSpace SplitHostPort r) = None ->
  (calls (S N) (Handler TrimSpace SplitHostPort m r) s).1
  = (repeat Next N ++ [TooManyRequests])%list.
Proof.
  intros Hkey HN Hmax Hw Hc Hb.
  set (key := "ip:" ++ getClientIP TrimSpace SplitHostPort r) in *.
  rewrite (calls_map response_of (checkLimit key (ipConfig (rateLimiter m)))).
  - destruct (calls_allowed_then_denied clock key (ipConfig (rateLimiter m))
                N s [] Hw Hmax HN) as (s' & E & _).
    { split; [lia|]. split; [done|]. by rewrite Hc. }
    destruct (calls_recorded key (ipConfig (rateLimiter m)) (S N) s [])
      as [R _].
    unfold mem in *. cbn [fst]. rewrite <- R, E. cbn [fst].
    rewrite map_app, map_repeat. done.
  - intros s0. rewrite Handler_run. unfold check_of. rewrite Hkey. done.
Qed.
End MiddlewareInMemory.

Lemma Handler_unknown_token_passes_witness :
  Handler (Storage0 := InMemory_Storage ms_clock)
    test_TrimSpace test_SplitHostPort
    (NewRateLimiterMiddleware override_limiter) (token_request "invalid")
    blocked_store
  = (Next, blocked_store).
Proof.
  apply (Handler_unknown_token_passes test_TrimSpace test_SplitHostPort
           (Storage0 := InMemory_Storage ms_clock)
           (NewRateLimiterMiddleware override_limiter)
           (token_request "invalid") blocked_store).
  - vm_compute. discriminate.
  - vm_compute. reflexivity.
Defined.

Lemma getClientIP_forwarded_for_wins_witness :
  getClientIP test_TrimSpace test_SplitHostPort forwarded_request
  = test_TrimSpace
      (nth 0 (Split ","%char (Header_Get forwarded_request "X-Forwarded-For"))
         "").
Proof.
  refine (proj1 (getClientIP_forwarded_for_wins test_TrimSpace
                   test_SplitHostPort forwarded_request _)).
  vm_compute. discriminate.
Defined.

Lemma Handler_limits_address_witness :
  (calls 4 (Handler (Storage0 := InMemory_Storage ms_clock)
              test_TrimSpace test_SplitHostPort
              (NewRateLimiterMiddleware (NewRateLimiter test_config))
              plain_request) NewInMemoryStorage).1
  = (repeat Next 3 ++ [TooManyRequests])%list.
Proof.
  apply (Handler_limits_address test_TrimSpace test_SplitHostPort ms_clock
           (NewRateLimiterMiddleware (NewRateLimiter test_config))
           plain_request NewInMemoryStorage 3).
  - reflexivity.
  - reflexivity.
  - vm_compute. reflexivity.
  - intros j Hj. unfold ms_clock, test_config, Second. simpl in *. lia.
  - reflexivity.
  - reflexivity.
Defined.

(** The address the tests expect for each source of the client address. *)
Example getClientIP_tests :
  getClientIP test_TrimSpace test_SplitHostPort forwarded_request
  = "203.0.113.1" /\
  getClientIP test_TrimSpace test_SplitHostPort plain_request = "192.168.1.1".
Proof. vm_compute. by split. Qed.
